(** * Blocking rules of splink: model and verification

    A shallow embedding of [splink/blocking.py]: the [BlockingRule] class,
    the base filter of the link modes, and the plan assembler
    [block_using_rules_sql], followed by the properties of the
    specification that are settled against it.

    Python objects that are shared and mutated (the blocking rules, whose
    [ids_to_compare] list grows while the plan is assembled) live in an
    arena and are referred to by index; SQL text is built exactly as the
    f-strings of the source build it, white space included. *)

From Stdlib Require Import QArith Qround Ascii.
From stdpp Require Import base strings list gmap pretty sorting.
Close Scope Q_scope.

(** ** Python preliminaries *)

(** The exceptions the modelled code can raise. *)
Inductive exn :=
| ValueError (msg : string)
| IndexError
| KeyError (key : string)
| UnboundLocalError (var : string)
| ParseError (text : string)
| BackendError (msg : string).

Inductive result (A : Type) :=
| Ok (a : A)
| Raise (e : exn).
Arguments Ok {A} a.
Arguments Raise {A} e.

(** [sep.join(l)] *)
Definition join (sep : string) (l : list string) : string := String.concat sep l.

(** [range(n)] for a Python int [n]: empty when [n <= 0]. *)
Definition range (n : Z) : list Z := seqZ 0 n.

(** ** The data model *)

(** An [InputColumn], seen through its [name()] method. *)
Record InputColumn := { name : string }.

(** A table handle of the backend ([SplinkDataFrame]). *)
Record SplinkDataFrame := {
  physical_name : string;
  templated_name : string;
  columns : list InputColumn }.

(** A reference to a [BlockingRule] object: its index in the arena. *)
Abbreviation ref := nat (only parsing).

(** The attributes [BlockingRule.__init__] sets.  [_sql_dialect] is the
    attribute that exists only when a truthy dialect was given. *)
Record BlockingRule := {
  blocking_rule : string;
  preceding_rules : list ref;
  sqlglot_dialect : option string;
  _sql_dialect : option string;
  salting_partitions : Z;
  arrays_to_explode : list string;
  ids_to_compare : list SplinkDataFrame }.

(** Truthiness of an optional string: [None] and [""] are falsy. *)
Definition truthy (o : option string) : bool :=
  match o with
  | Some (String _ _) => true
  | _ => false
  end.

(** [BlockingRule(blocking_rule, salting_partitions, sqlglot_dialect,
    arrays_to_explode)] *)
Definition BlockingRule__init__ (blocking_rule : string) (salting_partitions : Z)
    (sqlglot_dialect : option string) (arrays_to_explode : list string)
    : BlockingRule :=
  {| blocking_rule := blocking_rule;
     preceding_rules := [];
     sqlglot_dialect := sqlglot_dialect;
     _sql_dialect := if truthy sqlglot_dialect then sqlglot_dialect else None;
     salting_partitions := salting_partitions;
     arrays_to_explode := arrays_to_explode;
     ids_to_compare := [] |}.

(** [BlockingRule(text)]: every optional argument at its default. *)
Definition BlockingRule_of_text (text : string) : BlockingRule :=
  BlockingRule__init__ text 1%Z None [].

Definition sql_dialect (self : BlockingRule) : option string := _sql_dialect self.

Definition match_key (self : BlockingRule) : nat := length (preceding_rules self).

Definition sql (self : BlockingRule) : string := blocking_rule self.

(** [ensure_is_list] of [misc.py] is called here on a list only. *)
Definition add_preceding_rules (self : BlockingRule) (rules : list ref) : BlockingRule :=
  {| blocking_rule := blocking_rule self;
     preceding_rules := rules;
     sqlglot_dialect := sqlglot_dialect self;
     _sql_dialect := _sql_dialect self;
     salting_partitions := salting_partitions self;
     arrays_to_explode := arrays_to_explode self;
     ids_to_compare := ids_to_compare self |}.

(** [self.ids_to_compare.append(ids)] *)
Definition append_ids_to_compare (self : BlockingRule) (ids : SplinkDataFrame)
    : BlockingRule :=
  {| blocking_rule := blocking_rule self;
     preceding_rules := preceding_rules self;
     sqlglot_dialect := sqlglot_dialect self;
     _sql_dialect := _sql_dialect self;
     salting_partitions := salting_partitions self;
     arrays_to_explode := arrays_to_explode self;
     ids_to_compare := ids_to_compare self ++ [ids] |}.

(** The arena of rule objects.  A reference that points outside the arena
    cannot arise in Python; it reads as the rule below. *)
Abbreviation arena := (list BlockingRule) (only parsing).

Global Instance BlockingRule_inhabited : Inhabited BlockingRule :=
  populate (BlockingRule_of_text "").

Definition deref (h : arena) (r : ref) : BlockingRule := h !!! r.

(** The settings object, seen through the attributes the module reads. *)
Record Settings := {
  _columns_to_select_for_blocking : list string;
  _link_type : string;
  _unique_id_input_columns : list InputColumn;
  _unique_id_column_name : string;
  _blocking_rule_for_training : option ref;
  _blocking_rules_to_generate_predictions : list ref;
  salting_required : bool }.

(** The linker, seen through the attributes the module reads; [class_name]
    is [type(linker).__name__]. *)
Record Linker := {
  class_name : string;
  _settings_obj : Settings;
  _two_dataset_link_only : bool;
  _self_link_mode : bool;
  _deterministic_link_mode : bool;
  _find_new_matches_mode : bool;
  _compare_two_records_mode : bool;
  _train_u_using_random_sample_mode : bool;
  _input_tablename_l : string;
  _input_tablename_r : string;
  _source_dataset_column_name : string;
  _linker_sql_dialect : option string;
  _cache_uid : string;
  _input_tables_dict : gmap string SplinkDataFrame }.

(** ** Methods of [BlockingRule] *)

Definition exclude_from_following_rules_sql (self : BlockingRule) (linker : Linker)
    : string :=
  let unique_id_column := _unique_id_column_name (_settings_obj linker) in
  match ids_to_compare self with
  | _ :: _ =>
      let ids_to_compare_sql :=
        join " union all "
          ((λ ids, "select * from " +:+ physical_name ids) <$> ids_to_compare self) in
      "EXISTS (
                select 1 from (" +:+ ids_to_compare_sql +:+ ") as ids_to_compare
                where (
                    l." +:+ unique_id_column +:+ " = ids_to_compare." +:+ unique_id_column +:+ "_l and" +:+ " " +:+ "
                    r." +:+ unique_id_column +:+ " = ids_to_compare." +:+ unique_id_column +:+ "_r" +:+ " " +:+ "
                )
            )
            "
  | [] => "coalesce((" +:+ blocking_rule self +:+ "),false)"
  end.

Definition and_not_preceding_rules_sql (h : arena) (self : BlockingRule)
    (linker : Linker) : string :=
  match preceding_rules self with
  | [] => ""
  | _ :: _ =>
      let or_clauses :=
        (λ br, exclude_from_following_rules_sql (deref h br) linker)
          <$> preceding_rules self in
      let previous_rules := join " OR " or_clauses in
      "AND NOT (" +:+ previous_rules +:+ ")"
  end.

(** The generator [salted_blocking_rules], as the list of what it yields. *)
Definition salted_blocking_rules (self : BlockingRule) : list string :=
  if decide (salting_partitions self = 1%Z) then [blocking_rule self]
  else
    (λ n, blocking_rule self +:+ " and ceiling(l.__splink_salt * "
            +:+ pretty (salting_partitions self) +:+ ") = " +:+ pretty (n + 1)%Z)
      <$> range (salting_partitions self).

(** ** Structural decomposition of a predicate *)

(** Modelled from the spec: the SQL expression analysis that section 6
    lists as a consumed capability ([parse], [extract_equi_join],
    [render]); the source takes it from the sqlglot library, which is not
    part of the repository.  The model covers predicates built from
    columns, numbers, parentheses, arithmetic, comparisons and the
    connectives [and] and [or]. *)
Module sqlglot.

Inductive binop :=
| And | Or | EQ | NEQ | GT | GTE | LT | LTE | Add | Sub | Mul | Div.

Inductive Expression :=
| Column (table : option string) (this : string)
| Literal (this : string)
| Boolean (b : bool)
| Paren (this : Expression)
| Binary (op : binop) (left right : Expression).

Global Instance binop_eq_dec : EqDecision binop.
Proof. solve_decision. Defined.

Global Instance Expression_eq_dec : EqDecision Expression.
Proof. solve_decision. Defined.

(** *** Lexer *)

Inductive token :=
| TIdent (s : string)
| TNumber (s : string)
| TSym (s : string).

Definition is_digit (c : ascii) : bool :=
  let n := nat_of_ascii c in (48 <=? n) && (n <=? 57).

Definition is_alpha (c : ascii) : bool :=
  let n := nat_of_ascii c in
  ((65 <=? n) && (n <=? 90)) || ((97 <=? n) && (n <=? 122)) || (n =? 95).

Definition is_space (c : ascii) : bool :=
  let n := nat_of_ascii c in (n =? 32) || (n =? 9) || (n =? 10) || (n =? 13).

Definition lower (c : ascii) : ascii :=
  let n := nat_of_ascii c in
  if (65 <=? n) && (n <=? 90) then ascii_of_nat (n + 32) else c.

Fixpoint lowercase (s : string) : string :=
  match s with
  | EmptyString => EmptyString
  | String c s' => String (lower c) (lowercase s')
  end.

(** The longest prefix of characters that satisfy [p], and the rest. *)
Fixpoint span (p : ascii → bool) (s : string) : string * string :=
  match s with
  | String c s' =>
      if p c then let '(a, b) := span p s' in (String c a, b)
      else (EmptyString, s)
  | EmptyString => (EmptyString, EmptyString)
  end.

Definition two_char_symbols : list string := ["<>"; "!="; ">="; "<="].

Fixpoint tokenize (fuel : nat) (s : string) : option (list token) :=
  match fuel with
  | 0 => None
  | S fuel' =>
      match s with
      | EmptyString => Some []
      | String c s' =>
          if is_space c then tokenize fuel' s'
          else if is_digit c then
            let '(a, b) := span is_digit s in
            cons (TNumber a) <$> tokenize fuel' b
          else if is_alpha c then
            let '(a, b) := span (λ x, is_alpha x || is_digit x) s in
            cons (TIdent a) <$> tokenize fuel' b
          else
            match s' with
            | String d s'' =>
                if bool_decide (String c (String d EmptyString) ∈ two_char_symbols)
                then cons (TSym (String c (String d EmptyString))) <$> tokenize fuel' s''
                else cons (TSym (String c EmptyString)) <$> tokenize fuel' s'
            | EmptyString => Some [TSym (String c EmptyString)]
            end
      end
  end.

(** *** Parser *)

(** Binding strength, weakest first: [or], [and], equality, comparison,
    sum, product; level 0 is a primary expression. *)
Definition top_level : nat := 6.

Definition binop_at (level : nat) (t : token) : option binop :=
  match level, t with
  | 6, TIdent s => if decide (lowercase s = "or") then Some Or else None
  | 5, TIdent s => if decide (lowercase s = "and") then Some And else None
  | 4, TSym s =>
      if decide (s = "=") then Some EQ
      else if decide (s ∈ ["<>"; "!="]) then Some NEQ else None
  | 3, TSym s =>
      if decide (s = ">") then Some GT
      else if decide (s = ">=") then Some GTE
      else if decide (s = "<") then Some LT
      else if decide (s = "<=") then Some LTE else None
  | 2, TSym s =>
      if decide (s = "+") then Some Add
      else if decide (s = "-") then Some Sub else None
  | 1, TSym s =>
      if decide (s = "*") then Some Mul
      else if decide (s = "/") then Some Div else None
  | _, _ => None
  end.

Definition is_keyword (s : string) : bool :=
  bool_decide (lowercase s ∈ ["and"; "or"]).

Fixpoint parse_level (fuel level : nat) (ts : list token)
    : option (Expression * list token) :=
  match fuel with
  | 0 => None
  | S fuel' =>
      match level with
      | 0 =>
          match ts with
          | TNumber n :: rest => Some (Literal n, rest)
          | TIdent a :: TSym dot :: TIdent b :: rest =>
              if is_keyword a then None
              else if decide (dot = ".") then Some (Column (Some a) b, rest)
              else Some (Column None a, TSym dot :: TIdent b :: rest)
          | TIdent a :: rest =>
              if is_keyword a then None else Some (Column None a, rest)
          | TSym open :: rest =>
              if decide (open = "(") then
                match parse_level fuel' top_level rest with
                | Some (e, TSym close :: rest') =>
                    if decide (close = ")") then Some (Paren e, rest') else None
                | _ => None
                end
              else None
          | [] => None
          end
      | S level' =>
          match parse_level fuel' level' ts with
          | Some (e, rest) => parse_operands fuel' level e rest
          | None => None
          end
      end
  end
with parse_operands (fuel level : nat) (lhs : Expression) (ts : list token)
    : option (Expression * list token) :=
  match fuel with
  | 0 => None
  | S fuel' =>
      match ts with
      | t :: rest =>
          match binop_at level t with
          | Some op =>
              match parse_level fuel' (pred level) rest with
              | Some (rhs, rest') =>
                  parse_operands fuel' level (Binary op lhs rhs) rest'
              | None => None
              end
          | None => Some (lhs, ts)
          end
      | [] => Some (lhs, ts)
      end
  end.

(** [parse(predicate_text, dialect)]: [None] is the [ParseError].  The
    fragment reads the same in every dialect. *)
Definition parse (text : string) (dialect : option string) : option Expression :=
  match tokenize (S (String.length text)) text with
  | Some ts =>
      match parse_level (10 * S (length ts)) top_level ts with
      | Some (e, []) => Some e
      | _ => None
      end
  | None => None
  end.

(** *** Rendering *)

Definition binop_sql (op : binop) : string :=
  match op with
  | And => "AND" | Or => "OR" | EQ => "=" | NEQ => "<>"
  | GT => ">" | GTE => ">=" | LT => "<" | LTE => "<="
  | Add => "+" | Sub => "-" | Mul => "*" | Div => "/"
  end.

(** [tree.sql(dialect)] *)
Fixpoint sql (e : Expression) (dialect : option string) : string :=
  match e with
  | Column (Some t) c => t +:+ "." +:+ c
  | Column None c => c
  | Literal n => n
  | Boolean true => "TRUE"
  | Boolean false => "FALSE"
  | Paren e' => "(" +:+ sql e' dialect +:+ ")"
  | Binary op l r => sql l dialect +:+ " " +:+ binop_sql op +:+ " " +:+ sql r dialect
  end.

(** *** Extraction of the equi-join keys *)

Fixpoint unnest (e : Expression) : Expression :=
  match e with
  | Paren e' => unnest e'
  | _ => e
  end.

(** The operands of a chain of [and]. *)
Fixpoint flatten_and (e : Expression) : list Expression :=
  match e with
  | Binary And l r => flatten_and l ++ flatten_and r
  | _ => [e]
  end.

(** The tables the columns of an expression are qualified with. *)
Fixpoint column_table_names (e : Expression) : list string :=
  match e with
  | Column (Some t) _ => [t]
  | Column None _ => [""]
  | Literal _ | Boolean _ => []
  | Paren e' => column_table_names e'
  | Binary _ l r => column_table_names l ++ column_table_names r
  end.

(** Whether an expression is a conjunction of disjunctions: no [and]
    below an [or]. *)
Fixpoint has_and (e : Expression) : bool :=
  match e with
  | Binary And _ _ => true
  | Binary _ l r => has_and l || has_and r
  | Paren e' => has_and e'
  | _ => false
  end.

Fixpoint normalized (e : Expression) : bool :=
  match e with
  | Binary Or l r => negb (has_and l) && negb (has_and r)
  | Binary _ l r => normalized l && normalized r
  | Paren e' => normalized e'
  | _ => true
  end.

(** One conjunct of the join condition: a key pair [(source, join)] when
    it is an equality with the joined table [name] on exactly one side. *)
Definition extract_key (name : string) (condition : Expression)
    : option (Expression * Expression) :=
  match unnest condition with
  | Binary EQ l r =>
      let left := unnest l in
      let right := unnest r in
      let left_tables := column_table_names left in
      let right_tables := column_table_names right in
      if bool_decide (name ∈ left_tables) && negb (bool_decide (name ∈ right_tables))
      then Some (right, left)
      else if bool_decide (name ∈ right_tables) && negb (bool_decide (name ∈ left_tables))
      then Some (left, right)
      else None
  | _ => None
  end.

Fixpoint conjunction (es : list Expression) : option Expression :=
  match es with
  | [] => None
  | [e] => Some e
  | e :: es' =>
      match conjunction es' with
      | Some e' => Some (Binary And e e')
      | None => Some e
      end
  end.

(** [join_condition(join)] for a join with the table [name] on the
    condition [on]: the source keys, the join keys, and what remains of
    the condition ([None] when nothing remains). *)
Definition join_condition (name : string) (on : Expression)
    : list Expression * list Expression * option Expression :=
  if normalized on then
    let conditions := flatten_and on in
    let keys := omap (extract_key name) conditions in
    let remaining :=
      filter (λ c, extract_key name c = None ∧ unnest c ≠ Boolean true) conditions in
    (keys.*1, keys.*2, conjunction remaining)
  else ([], [], Some on).

End sqlglot.

(** [parse_one("INNER JOIN r", into=Join).on(br, dialect=...)]: the join
    is with the table [r]; what varies is its condition. *)
Definition _parsed_join_condition (self : BlockingRule) : result sqlglot.Expression :=
  match sqlglot.parse (blocking_rule self) (sqlglot_dialect self) with
  | Some on => Ok on
  | None => Raise (ParseError (blocking_rule self))
  end.

(** [for c in tree.find_all(Column): del c.args["table"]] *)
Fixpoint remove_table_prefix (tree : sqlglot.Expression) : sqlglot.Expression :=
  match tree with
  | sqlglot.Column _ c => sqlglot.Column None c
  | sqlglot.Paren e => sqlglot.Paren (remove_table_prefix e)
  | sqlglot.Binary op l r =>
      sqlglot.Binary op (remove_table_prefix l) (remove_table_prefix r)
  | _ => tree
  end.

Definition _equi_join_conditions (self : BlockingRule) : result (list (string * string)) :=
  match _parsed_join_condition self with
  | Ok j =>
      let '(source_keys, join_keys, _) := sqlglot.join_condition "r" j in
      let keys := zip source_keys join_keys in
      let rmtp := remove_table_prefix in
      let keys := (λ '(i, j), (rmtp i, rmtp j)) <$> keys in
      let keys :=
        (λ '(i, j), (sqlglot.sql i (sqlglot_dialect self),
                     sqlglot.sql j (sqlglot_dialect self))) <$> keys in
      Ok keys
  | Raise e => Raise e
  end.

Definition _filter_conditions (self : BlockingRule) : result string :=
  match _parsed_join_condition self with
  | Ok j =>
      let '(_, _, filter_condition) := sqlglot.join_condition "r" j in
      match filter_condition with
      | None => Ok ""
      | Some filter_condition => Ok (sqlglot.sql filter_condition (sqlglot_dialect self))
      end
  | Raise e => Raise e
  end.

(** ** The plan assembler *)

(** Ascending sort of strings ([sorted] on the keys of a dict). *)
Fixpoint insert_sorted (x : string) (l : list string) : list string :=
  match l with
  | [] => [x]
  | y :: l' => if String.leb x y then x :: y :: l' else y :: insert_sorted x l'
  end.

Definition sorted (l : list string) : list string := foldr insert_sorted [] l.

(** What the module imports from the rest of the package, from [hashlib]
    and from the backend is kept abstract: an interface with one
    implementation for each linker. *)
Class Externals := {
  (** The state of the execution engine: its pipeline of pending statements
      and its cache of materialised tables. *)
  Backend : Type;
  (** [unique_id_concat._composite_unique_id_from_nodes_sql] *)
  _composite_unique_id_from_nodes_sql : list InputColumn → string → string;
  (** [linker._intermediate_table_cache[key]]; [None] is the [KeyError]. *)
  _intermediate_table_cache : Backend → string → option SplinkDataFrame;
  _initialise_df_concat_with_tf : Backend → result (SplinkDataFrame * Backend);
  _gen_explode_sql : Linker → string → list string → list string → string;
  _enqueue_sql : string → string → Backend → Backend;
  _execute_sql_pipeline :
    list SplinkDataFrame → Backend → result (SplinkDataFrame * Backend);
  (** [InputColumn(colname, sql_dialect=d).quote().name()] *)
  quoted_name : string → option string → string;
  (** [list(s)] for a set [s]: Python fixes no iteration order. *)
  list_of_set : gset string → list string;
  (** [hashlib.sha256(b).hexdigest()] on the UTF-8 bytes of a string *)
  sha256_hexdigest : string → string }.

Section Assembler.

Context `{Externals}.

Definition _sql_gen_where_condition (link_type : string)
    (unique_id_cols : list InputColumn) : result string :=
  let id_expr_l := _composite_unique_id_from_nodes_sql unique_id_cols "l" in
  let id_expr_r := _composite_unique_id_from_nodes_sql unique_id_cols "r" in
  if decide (link_type ∈ ["two_dataset_link_only"; "self_link"]) then
    Ok " where 1=1 "
  else if decide (link_type ∈ ["link_and_dedupe"; "dedupe_only"]) then
    Ok ("where " +:+ id_expr_l +:+ " < " +:+ id_expr_r)
  else if decide (link_type = "link_only") then
    match unique_id_cols with
    | source_dataset_col :: _ =>
        Ok ("where " +:+ id_expr_l +:+ " < " +:+ id_expr_r +:+ " "
            +:+ "and l." +:+ name source_dataset_col
            +:+ " != r." +:+ name source_dataset_col)
    | [] => Raise IndexError
    end
  else Raise (UnboundLocalError "where_condition").

(** What a run of the assembler reads and writes: the rule objects, the
    engine, and two logs kept for the statements of this development:
    the calls of [_enqueue_sql] and the warnings of the logger. *)
Record Store := {
  rules : arena;
  backend : Backend;
  enqueued : list (string * string);
  warnings : list string }.

Definition M (A : Type) : Type := Store → result (A * Store).

Definition ret {A} (a : A) : M A := λ σ, Ok (a, σ).

Definition bind {A B} (m : M A) (k : A → M B) : M B :=
  λ σ, match m σ with
       | Ok (a, σ') => k a σ'
       | Raise e => Raise e
       end.

#[global] Instance M_ret : MRet M := @ret.
#[global] Instance M_bind : MBind M := λ A B k m, bind m k.

Definition raise {A} (e : exn) : M A := λ _, Raise e.

Definition lift_result {A} (r : result A) : M A :=
  λ σ, match r with
       | Ok a => Ok (a, σ)
       | Raise e => Raise e
       end.

Definition get_rule (br : ref) : M BlockingRule := λ σ, Ok (deref (rules σ) br, σ).

Definition get_rules : M arena := λ σ, Ok (rules σ, σ).

(** [BlockingRule(...)] as an expression: a new object in the arena. *)
Definition new_rule (r : BlockingRule) : M ref :=
  λ σ, Ok (length (rules σ),
           {| rules := rules σ ++ [r]; backend := backend σ;
              enqueued := enqueued σ; warnings := warnings σ |}).

(** [br.ids_to_compare.append(ids)] *)
Definition append_ids (br : ref) (ids : SplinkDataFrame) : M unit :=
  λ σ, Ok (tt,
           {| rules := <[br := append_ids_to_compare (deref (rules σ) br) ids]> (rules σ);
              backend := backend σ;
              enqueued := enqueued σ; warnings := warnings σ |}).

Definition enqueue_sql (sql output_table_name : string) : M unit :=
  λ σ, Ok (tt,
           {| rules := rules σ;
              backend := _enqueue_sql sql output_table_name (backend σ);
              enqueued := enqueued σ ++ [(sql, output_table_name)];
              warnings := warnings σ |}).

Definition logger_warning (msg : string) : M unit :=
  λ σ, Ok (tt,
           {| rules := rules σ; backend := backend σ;
              enqueued := enqueued σ; warnings := warnings σ ++ [msg] |}).

(** A call into the engine that returns a table or fails. *)
Definition call_backend (f : Backend → result (SplinkDataFrame * Backend))
    : M SplinkDataFrame :=
  λ σ, match f (backend σ) with
       | Ok (df, b) =>
           Ok (df, {| rules := rules σ; backend := b;
                      enqueued := enqueued σ; warnings := warnings σ |})
       | Raise e => Raise e
       end.

(** [try: linker._intermediate_table_cache[...] except KeyError: ...] *)
Definition input_dataframe_of_cache : M SplinkDataFrame :=
  λ σ, match _intermediate_table_cache (backend σ) "__splink__df_concat_with_tf" with
       | Some df => Ok (df, σ)
       | None => call_backend _initialise_df_concat_with_tf σ
       end.

(** The statement of the direct path (lines 299-310). *)
Definition direct_sql (linker : Linker) (sql_select_expr probability : string)
    (br : BlockingRule) (salted_br where_condition and_not : string) : string :=
  "
                select
                " +:+ sql_select_expr +:+ "
                , '" +:+ pretty (match_key br) +:+ "' as match_key
                " +:+ probability +:+ "
                from " +:+ _input_tablename_l linker +:+ " as l
                inner join " +:+ _input_tablename_r linker +:+ " as r
                on
                (" +:+ salted_br +:+ ")
                " +:+ where_condition +:+ "
                " +:+ and_not +:+ "
                ".

(** The statement that computes the id pairs (lines 342-345). *)
Definition ids_to_compare_sql (unique_id_col salted_br where_condition and_not : string)
    : string :=
  "
                    select distinct l." +:+ unique_id_col +:+ " as " +:+ unique_id_col +:+ "_l,r." +:+ unique_id_col +:+ " as " +:+ unique_id_col +:+ "_r
                    from __splink__df_concat_with_tf_unnested as l inner join __splink__df_concat_with_tf_unnested as r on (" +:+ salted_br +:+ ")
                    " +:+ where_condition +:+ " " +:+ and_not.

(** The name under which the id pairs are materialised (lines 334-346). *)
Definition salt_id_of (linker : Linker) (apply_salt : bool) (salted_br : string)
    : string :=
  if apply_salt then
    let to_hash := salted_br +:+ _cache_uid linker in
    "salt_id_" +:+ String.substring 0 9 (sha256_hexdigest to_hash)
  else "".

Definition ids_to_compare_name (br : BlockingRule) (salt_id : string) : string :=
  "ids_to_compare_blocking_rule_" +:+ pretty (match_key br) +:+ salt_id.

(** The statement of the array path that joins the id pairs back (lines
    350-356). *)
Definition exploded_sql (linker : Linker) (sql_select_expr probability : string)
    (br : BlockingRule) (ids : SplinkDataFrame) (unique_id_col : string) : string :=
  "
                    select " +:+ sql_select_expr +:+ ", '" +:+ pretty (match_key br) +:+ "' as match_key
                    " +:+ probability +:+ "
                    from " +:+ physical_name ids +:+ " as pairs
                    left join " +:+ _input_tablename_l linker +:+ " as l on pairs." +:+ unique_id_col +:+ "_l=l." +:+ unique_id_col +:+ "
                    left join " +:+ _input_tablename_r linker +:+ " as r on pairs." +:+ unique_id_col +:+ "_r=r." +:+ unique_id_col +:+ "
                ".

Definition where_suffix : string := " and l.source_dataset < r.source_dataset".

(** The body of the inner loop (lines 298-357) for one salted rule: the
    statement appended to [sqls] and the value [where_condition] has
    afterwards. *)
Definition block_branch (linker : Linker) (link_type : string) (apply_salt : bool)
    (sql_select_expr probability : string) (br : ref) (salted_br : string)
    (where_condition : string) : M (string * string) :=
  let settings_obj := _settings_obj linker in
  self ← get_rule br;
  match arrays_to_explode self with
  | [] =>
      h ← get_rules;
      ret (direct_sql linker sql_select_expr probability self salted_br
             where_condition (and_not_preceding_rules_sql h self linker),
           where_condition)
  | _ :: _ =>
      input_dataframe ← input_dataframe_of_cache;
      let input_colnames : gset string :=
        list_to_set (name <$> columns input_dataframe) in
      let arrays_to_explode_quoted :=
        (λ colname, quoted_name colname (_linker_sql_dialect linker))
          <$> arrays_to_explode self in
      enqueue_sql
        (_gen_explode_sql linker "__splink__df_concat_with_tf"
           (arrays_to_explode self)
           (list_of_set (input_colnames ∖ list_to_set arrays_to_explode_quoted)))
        "__splink__df_concat_with_tf_unnested";;
      let unique_id_col := _unique_id_column_name settings_obj in
      let where_condition :=
        if decide (link_type = "two_dataset_link_only")
        then where_condition +:+ where_suffix
        else where_condition in
      let salt_id := salt_id_of linker apply_salt salted_br in
      h ← get_rules;
      enqueue_sql
        (ids_to_compare_sql unique_id_col salted_br where_condition
           (and_not_preceding_rules_sql h self linker))
        (ids_to_compare_name self salt_id);;
      ids ← call_backend (_execute_sql_pipeline [input_dataframe]);
      append_ids br ids;;
      ret (exploded_sql linker sql_select_expr probability self ids unique_id_col,
           where_condition)
  end.

(** [for salted_br in salted_blocking_rules: ...; sqls.append(sql)] *)
Fixpoint block_salted (linker : Linker) (link_type : string) (apply_salt : bool)
    (sql_select_expr probability : string) (br : ref)
    (salted : list string) (where_condition : string) (sqls : list string)
    : M (string * list string) :=
  match salted with
  | [] => ret (where_condition, sqls)
  | salted_br :: rest =>
      '(sql, where_condition) ←
        block_branch linker link_type apply_salt sql_select_expr probability
          br salted_br where_condition;
      block_salted linker link_type apply_salt sql_select_expr probability
        br rest where_condition (sqls ++ [sql])
  end.

(** [for br in blocking_rules: ...] *)
Fixpoint block_rules (linker : Linker) (link_type : string) (apply_salt : bool)
    (sql_select_expr probability : string)
    (blocking_rules : list ref) (where_condition : string) (sqls : list string)
    : M (string * list string) :=
  match blocking_rules with
  | [] => ret (where_condition, sqls)
  | br :: rest =>
      self ← get_rule br;
      let salted :=
        if apply_salt then salted_blocking_rules self else [blocking_rule self] in
      '(where_condition, sqls) ←
        block_salted linker link_type apply_salt sql_select_expr probability
          br salted where_condition sqls;
      block_rules linker link_type apply_salt sql_select_expr probability
        rest where_condition sqls
  end.

(** The two statements enqueued after the loop for a link of exactly two
    datasets (lines 359-387). *)
Definition split_left_right (linker : Linker) : M unit :=
  if _two_dataset_link_only linker
     && negb (_find_new_matches_mode linker)
     && negb (_compare_two_records_mode linker)
  then
    let source_dataset_col := _source_dataset_column_name linker in
    let keys := sorted (elements (dom (_input_tables_dict linker))) in
    match keys with
    | k0 :: k1 :: _ =>
        match _input_tables_dict linker !! k0, _input_tables_dict linker !! k1 with
        | Some df_l, Some df_r =>
            let sample_switch :=
              if _train_u_using_random_sample_mode linker then "_sample" else "" in
            enqueue_sql
              ("
        select * from __splink__df_concat_with_tf" +:+ sample_switch +:+ "
        where " +:+ source_dataset_col +:+ " = '" +:+ templated_name df_l +:+ "'
        ")
              ("__splink__df_concat_with_tf" +:+ sample_switch +:+ "_left");;
            enqueue_sql
              ("
        select * from __splink__df_concat_with_tf" +:+ sample_switch +:+ "
        where " +:+ source_dataset_col +:+ " = '" +:+ templated_name df_r +:+ "'
        ")
              ("__splink__df_concat_with_tf" +:+ sample_switch +:+ "_right")
        | _, _ => raise (KeyError k0)
        end
    | _ => raise IndexError
    end
  else ret tt.

(** The link type the run works with (lines 246-252). *)
Definition resolve_link_type (linker : Linker) : string :=
  let link_type := _link_type (_settings_obj linker) in
  let link_type :=
    if _two_dataset_link_only linker then "two_dataset_link_only" else link_type in
  if _self_link_mode linker then "self_link" else link_type.

Definition block_using_rules_sql (linker : Linker) : M string :=
  let apply_salt := bool_decide (class_name linker ∈ ["SparkLinker"]) in
  let settings_obj := _settings_obj linker in
  let columns_to_select := _columns_to_select_for_blocking settings_obj in
  let sql_select_expr := join ", " columns_to_select in
  let link_type := resolve_link_type linker in
  where_condition ←
    lift_result
      (_sql_gen_where_condition link_type (_unique_id_input_columns settings_obj));
  let blocking_rules :=
    match _blocking_rule_for_training settings_obj with
    | Some br => [br]
    | None => _blocking_rules_to_generate_predictions settings_obj
    end in
  (if salting_required settings_obj && negb apply_salt
   then logger_warning
          "WARNING: Salting is not currently supported by this linker backend and will not be implemented for this run."
   else ret tt);;
  blocking_rules ←
    match blocking_rules with
    | [] => br ← new_rule (BlockingRule_of_text "1=1"); ret [br]
    | _ :: _ => ret blocking_rules
    end;
  let probability :=
    if _deterministic_link_mode linker then ", 1.00 as match_probability" else "" in
  '(_, sqls) ←
    block_rules linker link_type apply_salt sql_select_expr probability
      blocking_rules where_condition [];
  split_left_right linker;;
  ret (join "union all" sqls).

End Assembler.

(** ** Building rules from their declarations *)

(** A structured rule declaration: a dict with the keys of the serialised
    form, its values typed as the constructor documents them.  The outer
    [option] of a field tells whether the key is present; the predicate and
    the dialect may be present and hold Python's [None]. *)
Record RuleDict := {
  dict_blocking_rule : option (option string);
  dict_sql_dialect : option (option string);
  dict_salting_partitions : option Z;
  dict_arrays_to_explode : option (list string) }.

(** What [blocking_rule_to_obj] accepts: a rule object, a dict, or anything
    else, which is taken for the predicate text. *)
Inductive rule_declaration :=
| AsObject (br : BlockingRule)
| AsDict (br : RuleDict)
| AsText (br : string).

(** [d.get(key, default)] *)
Definition dict_get {A} (field : option A) (default : A) : A :=
  match field with
  | Some v => v
  | None => default
  end.

Definition blocking_rule_to_obj (br : rule_declaration) : result BlockingRule :=
  match br with
  | AsObject br => Ok br
  | AsDict br =>
      let blocking_rule := dict_get (dict_blocking_rule br) None in
      match blocking_rule with
      | None => Raise (ValueError "No blocking rule submitted...")
      | Some blocking_rule =>
          let sqlglot_dialect := dict_get (dict_sql_dialect br) None in
          let salting_partitions := dict_get (dict_salting_partitions br) 1%Z in
          let arrays_to_explode := dict_get (dict_arrays_to_explode br) [] in
          Ok (BlockingRule__init__ blocking_rule salting_partitions sqlglot_dialect
                arrays_to_explode)
      end
  | AsText br => Ok (BlockingRule_of_text br)
  end.

(** ** Serialising and printing a rule *)

(** [as_dict]: the minimal representation of the blocking rule.  The key
    [sql_dialect] is always written, with the value [None] when the rule
    has no dialect. *)
Definition as_dict (self : BlockingRule) : RuleDict :=
  {| dict_blocking_rule := Some (Some (blocking_rule self));
     dict_sql_dialect := Some (sql_dialect self);
     dict_salting_partitions :=
       if bool_decide (1 < salting_partitions self)%Z
          && bool_decide (sql_dialect self = Some "spark")
       then Some (salting_partitions self)
       else None;
     dict_arrays_to_explode :=
       match arrays_to_explode self with
       | [] => None
       | _ :: _ => Some (arrays_to_explode self)
       end |}.

(** [_as_completed_dict]; its test reads
    [(not self.salting_partitions > 1) and self.sql_dialect == "spark"]. *)
Definition _as_completed_dict (self : BlockingRule) : rule_declaration :=
  if negb (bool_decide (1 < salting_partitions self)%Z)
     && bool_decide (sql_dialect self = Some "spark")
  then AsText (blocking_rule self)
  else AsDict (as_dict self).

(** [s[:stop]] for a Python int [stop]: a negative [stop] counts from the
    end.  The characters of a string are its bytes here. *)
Definition slice_to (s : string) (stop : Z) : string :=
  if bool_decide (0 ≤ stop)%Z then String.substring 0 (Z.to_nat stop) s
  else String.substring 0 (String.length s - Z.to_nat (- stop)) s.

Definition _abbreviated_sql (self : BlockingRule) (cutoff : Z) : string :=
  let sql := blocking_rule self in
  if bool_decide (cutoff < Z.of_nat (String.length sql))%Z
  then slice_to sql cutoff +:+ "..."
  else sql.

(** [descr]: the attribute [_description] is set by no code of this
    module; it is given here as what [hasattr] finds. *)
Definition descr (_description : option string) : string :=
  match _description with
  | None => "Custom"
  | Some description => description
  end.

Definition _human_readable_succinct (_description : option string)
    (self : BlockingRule) : string :=
  let sql := _abbreviated_sql self 75 in
  descr _description +:+ " blocking rule using SQL: " +:+ sql.

Definition __repr__ (_description : option string) (self : BlockingRule) : string :=
  "<" +:+ _human_readable_succinct _description self +:+ ">".

(** Modelled from the spec: the duplicate-avoidance composer of sections 3
    and 4.2, which is part of the settings code of the package and not of
    this module.  It keeps the order of the rules and gives each one, as
    its [preceding_rules], the rules ordered before it; the composed rules
    fill an arena from index 0 on. *)
Definition compose_rules (rules : list BlockingRule) : arena :=
  imap (λ n br, add_preceding_rules br (seq 0 n)) rules.

(** ** The meaning of the generated conditions *)

(** SQL's three truth values; [None] is unknown.  A row passes an [ON] or a
    [WHERE] condition when the condition is true. *)
Definition truth := option bool.


Definition sql_and (a b : truth) : truth :=
  match a, b with
  | Some false, _ | _, Some false => Some false
  | Some true, Some true => Some true
  | _, _ => None
  end.



Definition passes (a : truth) : bool := bool_decide (a = Some true).

(** A pair of rows [l], [r] of the join, seen through what the generated
    conditions ask of it: the value the engine gives to a predicate or to a
    where-condition as the user or the module wrote it, the salt of the
    left row, and whether the two unique ids form a row of one of the
    tables named. *)
Record RowPair := {
  value_of : string → truth;
  salt_l : Q;
  ids_in : list string → bool }.

(** [ceiling(l.__splink_salt * n)] *)
Definition bucket (p : RowPair) (n : Z) : Z := Qceiling (salt_l p * inject_Z n).

(** The join condition of a statement: the predicate as it is, or one of
    its salted variants. *)
Inductive on_clause :=
| Unsalted (predicate : string)
| Salted (predicate : string) (partitions : Z) (n : Z).

Definition render_on (c : on_clause) : string :=
  match c with
  | Unsalted predicate => predicate
  | Salted predicate partitions n =>
      predicate +:+ " and ceiling(l.__splink_salt * "
        +:+ pretty partitions +:+ ") = " +:+ pretty n
  end.

Definition eval_on (p : RowPair) (c : on_clause) : truth :=
  match c with
  | Unsalted predicate => value_of p predicate
  | Salted predicate partitions n =>
      sql_and (value_of p predicate) (Some (bool_decide (bucket p partitions = n)))
  end.

(** What a rule contributes to the exclusion clause of the rules after it:
    its guarded predicate, or a look-up of the pair in its cached tables. *)
Inductive exclusion :=
| Guarded (predicate : string)
| Cached (tables : list SplinkDataFrame) (unique_id_column : string).

Definition render_exclusion (e : exclusion) : string :=
  match e with
  | Guarded predicate => "coalesce((" +:+ predicate +:+ "),false)"
  | Cached tables unique_id_column =>
      "EXISTS (
                select 1 from (" +:+ join " union all " ((λ ids, "select * from " +:+ physical_name ids) <$> tables) +:+ ") as ids_to_compare
                where (
                    l." +:+ unique_id_column +:+ " = ids_to_compare." +:+ unique_id_column +:+ "_l and" +:+ " " +:+ "
                    r." +:+ unique_id_column +:+ " = ids_to_compare." +:+ unique_id_column +:+ "_r" +:+ " " +:+ "
                )
            )
            "
  end.


(** The clause [AND NOT (e1 OR e2 ...)]; no clause at all for no term. *)
Definition render_and_not (es : list exclusion) : string :=
  match es with
  | [] => ""
  | _ :: _ => "AND NOT (" +:+ join " OR " (render_exclusion <$> es) +:+ ")"
  end.



(** The exclusion term of a rule, and the terms in the clause of a rule. *)
Definition exclusion_of (self : BlockingRule) (linker : Linker) : exclusion :=
  match ids_to_compare self with
  | _ :: _ => Cached (ids_to_compare self) (_unique_id_column_name (_settings_obj linker))
  | [] => Guarded (blocking_rule self)
  end.

Definition exclusions_of (h : arena) (self : BlockingRule) (linker : Linker)
    : list exclusion :=
  (λ br, exclusion_of (deref h br) linker) <$> preceding_rules self.

(** The salted variants of a rule as join conditions. *)
Definition salted_clauses (self : BlockingRule) : list on_clause :=
  if decide (salting_partitions self = 1%Z) then [Unsalted (blocking_rule self)]
  else
    (λ n, Salted (blocking_rule self) (salting_partitions self) (n + 1)%Z)
      <$> range (salting_partitions self).

Definition on_clauses (apply_salt : bool) (self : BlockingRule) : list on_clause :=
  if apply_salt then salted_clauses self else [Unsalted (blocking_rule self)].

(** A statement of the direct path: the rule it is generated for, its join
    condition, the where-condition and the terms of the exclusion clause. *)
Record Statement := {
  st_rule : BlockingRule;
  st_on : on_clause;
  st_where : string;
  st_and_not : list exclusion }.

Definition render_statement (linker : Linker) (sql_select_expr probability : string)
    (st : Statement) : string :=
  direct_sql linker sql_select_expr probability (st_rule st)
    (render_on (st_on st)) (st_where st) (render_and_not (st_and_not st)).


(** The statements of the rules [brs] when all of them take the direct
    path, in the order the assembler generates them. *)
Definition statements_of_rule (h : arena) (linker : Linker) (apply_salt : bool)
    (where_condition : string) (br : ref) : list Statement :=
  (λ c, {| st_rule := deref h br; st_on := c; st_where := where_condition;
           st_and_not := exclusions_of h (deref h br) linker |})
    <$> on_clauses apply_salt (deref h br).

Definition statements (h : arena) (linker : Linker) (apply_salt : bool)
    (where_condition : string) (brs : list ref) : list Statement :=
  brs ≫= statements_of_rule h linker apply_salt where_condition.


(** ** Examples used to exercise the statements *)

Definition example_df (physical : string) : SplinkDataFrame :=
  {| physical_name := physical; templated_name := physical; columns := [] |}.

(** A stand-in for the rest of the package: a backend without state, whose
    tables are named after the statement that was asked for. *)
Definition example_externals : Externals :=
  {| Backend := unit;
     _composite_unique_id_from_nodes_sql := λ cols prefix,
       join " || '-__-' || " ((λ c, prefix +:+ "." +:+ name c) <$> cols);
     _intermediate_table_cache := λ _ _, None;
     _initialise_df_concat_with_tf := λ b,
       Ok (example_df "__splink__df_concat_with_tf", b);
     _gen_explode_sql := λ _ table _ _, "select * from " +:+ table;
     _enqueue_sql := λ _ _ b, b;
     _execute_sql_pipeline := λ _ b, Ok (example_df "__splink__ids", b);
     quoted_name := λ colname _, colname;
     list_of_set := elements;
     sha256_hexdigest := λ s, s |}.

Definition example_settings (link_type : string) (brs : list ref) : Settings :=
  {| _columns_to_select_for_blocking := ["l.unique_id as unique_id_l"; "r.unique_id as unique_id_r"];
     _link_type := link_type;
     _unique_id_input_columns := [ {| name := "unique_id" |} ];
     _unique_id_column_name := "unique_id";
     _blocking_rule_for_training := None;
     _blocking_rules_to_generate_predictions := brs;
     salting_required := false |}.

Definition example_linker (class : string) (link_type : string) (brs : list ref)
    : Linker :=
  {| class_name := class;
     _settings_obj := example_settings link_type brs;
     _two_dataset_link_only := false;
     _self_link_mode := false;
     _deterministic_link_mode := false;
     _find_new_matches_mode := false;
     _compare_two_records_mode := false;
     _train_u_using_random_sample_mode := false;
     _input_tablename_l := "__splink__df_concat_with_tf";
     _input_tablename_r := "__splink__df_concat_with_tf";
     _source_dataset_column_name := "source_dataset";
     _linker_sql_dialect := None;
     _cache_uid := "abc123";
     _input_tables_dict := ∅ |}.

(** ** Notions used to state the properties *)

(** Whether every character of a string satisfies a test. *)
Fixpoint all_chars (test : ascii → bool) (s : string) : bool :=
  match s with
  | EmptyString => true
  | String c s' => test c && all_chars test s'
  end.

(** The attributes of a rule that a run of the assembler never writes. *)
Definition static (br : BlockingRule)
    : string * list ref * Z * list string :=
  (blocking_rule br, preceding_rules br, salting_partitions br, arrays_to_explode br).

(** The predicates the inner loop runs through for a rule (lines 292-295). *)
Definition branches_of (apply_salt : bool) (self : BlockingRule) : list string :=
  if apply_salt then salted_blocking_rules self else [blocking_rule self].



(** The linker with the given rules to generate predictions, and no rule
    for training. *)
Definition with_prediction_rules (linker : Linker) (brs : list ref) : Linker :=
  let settings_obj := _settings_obj linker in
  {| class_name := class_name linker;
     _settings_obj :=
       {| _columns_to_select_for_blocking := _columns_to_select_for_blocking settings_obj;
          _link_type := _link_type settings_obj;
          _unique_id_input_columns := _unique_id_input_columns settings_obj;
          _unique_id_column_name := _unique_id_column_name settings_obj;
          _blocking_rule_for_training := None;
          _blocking_rules_to_generate_predictions := brs;
          salting_required := salting_required settings_obj |};
     _two_dataset_link_only := _two_dataset_link_only linker;
     _self_link_mode := _self_link_mode linker;
     _deterministic_link_mode := _deterministic_link_mode linker;
     _find_new_matches_mode := _find_new_matches_mode linker;
     _compare_two_records_mode := _compare_two_records_mode linker;
     _train_u_using_random_sample_mode := _train_u_using_random_sample_mode linker;
     _input_tablename_l := _input_tablename_l linker;
     _input_tablename_r := _input_tablename_r linker;
     _source_dataset_column_name := _source_dataset_column_name linker;
     _linker_sql_dialect := _linker_sql_dialect linker;
     _cache_uid := _cache_uid linker;
     _input_tables_dict := _input_tables_dict linker |}.

(** The store with one more rule object, at the next free index. *)
Definition with_new_rule `{Externals} (σ : Store) (br : BlockingRule) : Store :=
  {| rules := rules σ ++ [br]; backend := backend σ;
     enqueued := enqueued σ; warnings := warnings σ |}.

(** The store after the warning about salting, when it is due. *)
Definition with_salting_warning `{Externals} (linker : Linker) (σ : Store) : Store :=
  if salting_required (_settings_obj linker)
     && negb (bool_decide (class_name linker ∈ ["SparkLinker"]))
  then {| rules := rules σ; backend := backend σ; enqueued := enqueued σ;
          warnings := warnings σ ++
            ["WARNING: Salting is not currently supported by this linker backend and will not be implemented for this run."] |}
  else σ.

(** The table names a run has enqueued statements for. *)
Definition enqueued_names `{Externals} {A} (r : result (A * Store)) : list string :=
  match r with
  | Ok (_, σ) => (enqueued σ).*2
  | Raise _ => []
  end.

(** A rule with arrays to explode, and the store of a run that has this
    rule alone. *)
Definition example_array_rule (predicate : string) : BlockingRule :=
  BlockingRule__init__ predicate 1 None ["postcode"].

Definition example_store (h : arena) : @Store example_externals :=
  {| rules := h; backend := tt : @Backend example_externals;
     enqueued := []; warnings := [] |}.

(** The example linker with another cache identifier. *)
Definition example_linker_with_uid (class link_type : string) (brs : list ref)
    (uid : string) : Linker :=
  {| class_name := class;
     _settings_obj := example_settings link_type brs;
     _two_dataset_link_only := false;
     _self_link_mode := false;
     _deterministic_link_mode := false;
     _find_new_matches_mode := false;
     _compare_two_records_mode := false;
     _train_u_using_random_sample_mode := false;
     _input_tablename_l := "__splink__df_concat_with_tf";
     _input_tablename_r := "__splink__df_concat_with_tf";
     _source_dataset_column_name := "source_dataset";
     _linker_sql_dialect := None;
     _cache_uid := uid;
     _input_tables_dict := ∅ |}.



(** The statement of the rule [br] of the direct path for the branch
    [salted_br], in the arena [h]. *)
Definition direct_statement (linker : Linker) (sql_select_expr probability : string)
    (h : arena) (where_condition : string) (br : ref) (salted_br : string) : string :=
  direct_sql linker sql_select_expr probability (deref h br) salted_br
    where_condition (and_not_preceding_rules_sql h (deref h br) linker).

(** The where-condition after a pass of the inner loop on the array path
    (lines 329-332). *)
Definition after_array_branch (link_type where_condition : string) : string :=
  if decide (link_type = "two_dataset_link_only")
  then where_condition +:+ where_suffix
  else where_condition.

(** ** Notions used to state further properties *)

(** What [__init__] establishes and no method changes: the attribute
    [_sql_dialect] holds the dialect given when it is truthy, and is
    absent otherwise. *)
Definition dialect_invariant (self : BlockingRule) : Prop :=
  _sql_dialect self
  = if truthy (sqlglot_dialect self) then sqlglot_dialect self else None.

(** The linker with other rules to generate predictions, the rule for
    training kept. *)
Definition set_prediction_rules (linker : Linker) (brs : list ref) : Linker :=
  let settings_obj := _settings_obj linker in
  {| class_name := class_name linker;
     _settings_obj :=
       {| _columns_to_select_for_blocking := _columns_to_select_for_blocking settings_obj;
          _link_type := _link_type settings_obj;
          _unique_id_input_columns := _unique_id_input_columns settings_obj;
          _unique_id_column_name := _unique_id_column_name settings_obj;
          _blocking_rule_for_training := _blocking_rule_for_training settings_obj;
          _blocking_rules_to_generate_predictions := brs;
          salting_required := salting_required settings_obj |};
     _two_dataset_link_only := _two_dataset_link_only linker;
     _self_link_mode := _self_link_mode linker;
     _deterministic_link_mode := _deterministic_link_mode linker;
     _find_new_matches_mode := _find_new_matches_mode linker;
     _compare_two_records_mode := _compare_two_records_mode linker;
     _train_u_using_random_sample_mode := _train_u_using_random_sample_mode linker;
     _input_tablename_l := _input_tablename_l linker;
     _input_tablename_r := _input_tablename_r linker;
     _source_dataset_column_name := _source_dataset_column_name linker;
     _linker_sql_dialect := _linker_sql_dialect linker;
     _cache_uid := _cache_uid linker;
     _input_tables_dict := _input_tables_dict linker |}.

(** The rules a run works with, when they are not replaced by the default
    rule (lines 262-265). *)
Definition rules_of_run (linker : Linker) : list ref :=
  match _blocking_rule_for_training (_settings_obj linker) with
  | Some br => [br]
  | None => _blocking_rules_to_generate_predictions (_settings_obj linker)
  end.

(** The statement that selects one of the two datasets, and the name it
    is enqueued under (lines 372-387). *)
Definition dataset_half_sql (linker : Linker) (df : SplinkDataFrame) : string :=
  let sample_switch :=
    if _train_u_using_random_sample_mode linker then "_sample" else "" in
  "
        select * from __splink__df_concat_with_tf" +:+ sample_switch +:+ "
        where " +:+ _source_dataset_column_name linker +:+ " = '" +:+ templated_name df +:+ "'
        ".

Definition dataset_half_name (linker : Linker) (side : string) : string :=
  let sample_switch :=
    if _train_u_using_random_sample_mode linker then "_sample" else "" in
  "__splink__df_concat_with_tf" +:+ sample_switch +:+ side.

(** Whether the two datasets are split after the loop (lines 359-363). *)
Definition splits_datasets (linker : Linker) : bool :=
  _two_dataset_link_only linker
  && negb (_find_new_matches_mode linker)
  && negb (_compare_two_records_mode linker).

(** The rule [r'] is the rule [r] with more tables in its cache, and the
    arena [h'] has the rules of [h], each with more tables in its cache. *)
Definition extends_cache (r r' : BlockingRule) : Prop :=
  ∃ more, r' = foldl append_ids_to_compare r more.

Definition only_caches_grow (h h' : arena) : Prop := Forall2 extends_cache h h'.

(** The rules a run works with, the default rule of lines 277-278
    included, and the store when the loop starts. *)
Definition rules_in_loop `{Externals} (linker : Linker) (σ : Store) : list ref :=
  match rules_of_run linker with
  | [] => [length (rules σ)]
  | _ :: _ => rules_of_run linker
  end.

Definition store_in_loop `{Externals} (linker : Linker) (σ : Store) : Store :=
  match rules_of_run linker with
  | [] => with_new_rule (with_salting_warning linker σ) (BlockingRule_of_text "1=1")
  | _ :: _ => with_salting_warning linker σ
  end.

(** The select list and the probability column of a run (lines 243-244
    and 282-285). *)
Definition select_expr_of (linker : Linker) : string :=
  join ", " (_columns_to_select_for_blocking (_settings_obj linker)).

Definition probability_of (linker : Linker) : string :=
  if _deterministic_link_mode linker then ", 1.00 as match_probability" else "".

Definition applies_salt (linker : Linker) : bool :=
  bool_decide (class_name linker ∈ ["SparkLinker"]).

(** The number of passes of the inner loop for the rules [brs]. *)
Definition branch_count (apply_salt : bool) (h : arena) (brs : list ref) : nat :=
  sum_list ((λ br, length (branches_of apply_salt (deref h br))) <$> brs).

(** A linker of exactly two datasets, with the input tables [tables] and a
    rule for training. *)
Definition example_two_dataset_linker (tables : gmap string SplinkDataFrame)
    (training : option ref) (brs : list ref) : Linker :=
  {| class_name := "DuckDBLinker";
     _settings_obj :=
       {| _columns_to_select_for_blocking := ["l.unique_id as unique_id_l"; "r.unique_id as unique_id_r"];
          _link_type := "link_only";
          _unique_id_input_columns := [ {| name := "source_dataset" |}; {| name := "unique_id" |} ];
          _unique_id_column_name := "unique_id";
          _blocking_rule_for_training := training;
          _blocking_rules_to_generate_predictions := brs;
          salting_required := false |};
     _two_dataset_link_only := true;
     _self_link_mode := false;
     _deterministic_link_mode := false;
     _find_new_matches_mode := false;
     _compare_two_records_mode := false;
     _train_u_using_random_sample_mode := false;
     _input_tablename_l := "__splink__df_concat_with_tf_left";
     _input_tablename_r := "__splink__df_concat_with_tf_right";
     _source_dataset_column_name := "source_dataset";
     _linker_sql_dialect := None;
     _cache_uid := "abc123";
     _input_tables_dict := tables |}.

Definition example_table (table_name : string) : SplinkDataFrame :=
  {| physical_name := table_name; templated_name := table_name;
     columns := [ {| name := "unique_id" |} ] |}.

(** * Properties *)

(** ** The exclusion clause of a rule *)

Lemma exclude_from_following_rules_sql_render (self : BlockingRule) (linker : Linker) :
  exclude_from_following_rules_sql self linker
  = render_exclusion (exclusion_of self linker).
Proof.
  unfold exclude_from_following_rules_sql, exclusion_of.
  destruct (ids_to_compare self); reflexivity.
Qed.



(** ** Salted variants *)

Lemma salted_blocking_rules_render (self : BlockingRule) :
  salted_blocking_rules self = render_on <$> salted_clauses self.
Proof.
  unfold salted_blocking_rules, salted_clauses.
  case_decide; [reflexivity|].
  by rewrite <- list_fmap_compose.
Qed.


(** ** The base filter of a link mode *)

(** C2: the where-condition is chosen by the link mode.  The modes
    [two_dataset_link_only] and [self_link] get [where 1=1], whatever the
    id columns are; [dedupe_only] and [link_and_dedupe] get the test that
    the composite id of the left record is below that of the right record;
    [link_only] gets the same test and, in addition, that the two records
    differ in the source-dataset column, the first of the id columns. *)
Theorem sql_gen_where_condition_by_link_mode `{Externals}
    (unique_id_cols : list InputColumn) :
  let id_expr_l := _composite_unique_id_from_nodes_sql unique_id_cols "l" in
  let id_expr_r := _composite_unique_id_from_nodes_sql unique_id_cols "r" in
  _sql_gen_where_condition "two_dataset_link_only" unique_id_cols = Ok " where 1=1 "
  ∧ _sql_gen_where_condition "self_link" unique_id_cols = Ok " where 1=1 "
  ∧ _sql_gen_where_condition "dedupe_only" unique_id_cols
    = Ok ("where " +:+ id_expr_l +:+ " < " +:+ id_expr_r)
  ∧ _sql_gen_where_condition "link_and_dedupe" unique_id_cols
    = Ok ("where " +:+ id_expr_l +:+ " < " +:+ id_expr_r)
  ∧ _sql_gen_where_condition "link_only" unique_id_cols
    = match unique_id_cols with
      | source_dataset_col :: _ =>
          Ok ("where " +:+ id_expr_l +:+ " < " +:+ id_expr_r
              +:+ " and l." +:+ name source_dataset_col
              +:+ " != r." +:+ name source_dataset_col)
      | [] => Raise IndexError
      end.
Proof.
  intros id_expr_l id_expr_r. unfold _sql_gen_where_condition.
  repeat split; reflexivity.
Qed.

(** ** Rules built from a structured declaration *)

(** C8, as stated, fails: a dict that has the key [blocking_rule] with the
    value [None] includes the predicate field, and the conversion raises. *)
Lemma blocking_rule_to_obj_none_predicate_raises :
  let br :=
    {| dict_blocking_rule := Some None; dict_sql_dialect := None;
       dict_salting_partitions := None; dict_arrays_to_explode := None |} in
  dict_blocking_rule br ≠ None
  ∧ blocking_rule_to_obj (AsDict br) = Raise (ValueError "No blocking rule submitted...").
Proof. split; [discriminate|reflexivity]. Qed.

(** C8, amended: a dict without the key [blocking_rule], or with the value
    [None] for it, is refused with a [ValueError]; a dict that gives the
    predicate is always accepted, and the rule built has this predicate, no
    preceding rules and no cached id pairs, and for each optional key the
    value given, or else the default: dialect [None], one salting partition,
    no arrays to explode. *)
Theorem blocking_rule_to_obj_dict (br : RuleDict) :
  match dict_blocking_rule br with
  | Some (Some predicate) =>
      ∃ rule,
        blocking_rule_to_obj (AsDict br) = Ok rule
        ∧ blocking_rule rule = predicate
        ∧ preceding_rules rule = []
        ∧ ids_to_compare rule = []
        ∧ sqlglot_dialect rule
          = match dict_sql_dialect br with Some dialect => dialect | None => None end
        ∧ salting_partitions rule
          = match dict_salting_partitions br with Some n => n | None => 1%Z end
        ∧ arrays_to_explode rule
          = match dict_arrays_to_explode br with Some arrays => arrays | None => [] end
  | Some None | None =>
      blocking_rule_to_obj (AsDict br) = Raise (ValueError "No blocking rule submitted...")
  end.
Proof.
  unfold blocking_rule_to_obj.
  destruct (dict_blocking_rule br) as [[predicate|]|]; simpl; try reflexivity.
  eexists. split; [reflexivity|]. by repeat split.
Qed.

(** ** Decomposition of a predicate *)

(** C4, as stated, fails in its last part: the residual filter is rendered
    from the parsed condition as it is, with the table prefixes [l.] and
    [r.] that only the key pairs are stripped of. *)
Lemma filter_conditions_keeps_table_prefixes :
  _filter_conditions (BlockingRule_of_text "l.name = r.name and l.age > r.age - 2")
  = Ok "l.age > r.age - 2"
  ∧ _filter_conditions (BlockingRule_of_text "l.name = r.name and l.age > r.age - 2")
    ≠ Ok "age > age - 2".
Proof. split; [vm_compute; reflexivity|vm_compute; discriminate]. Qed.

(** C4, amended: the predicate [l.name = r.name and l.dob = r.dob]
    decomposes into the key pairs (name, name), (dob, dob), without table
    prefixes, and the empty filter; [l.name = r.name and l.age > r.age - 2]
    into the key pair (name, name) and the filter [l.age > r.age - 2], which
    keeps its table prefixes.  This holds whatever the other attributes of
    the rule are. *)
Theorem decomposition_of_the_two_predicates
    (partitions : Z) (dialect : option string) (arrays : list string) :
  let equalities :=
    BlockingRule__init__ "l.name = r.name and l.dob = r.dob" partitions dialect arrays in
  let mixed :=
    BlockingRule__init__ "l.name = r.name and l.age > r.age - 2" partitions dialect arrays in
  _equi_join_conditions equalities = Ok [("name", "name"); ("dob", "dob")]
  ∧ _filter_conditions equalities = Ok ""
  ∧ _equi_join_conditions mixed = Ok [("name", "name")]
  ∧ _filter_conditions mixed = Ok "l.age > r.age - 2".
Proof. repeat split; vm_compute; reflexivity. Qed.

(** ** Runs of the assembler over rules of the direct path *)

Ltac unfold_monad :=
  unfold mbind, M_bind, bind, ret, get_rule, get_rules, lift_result in *.

Section Direct_path.

Context `{Externals}.

Variables (linker : Linker) (link_type : string) (apply_salt : bool).
Variables (sql_select_expr probability : string).

Lemma block_branch_direct (br : ref) (salted_br where_condition : string) (σ : Store) :
  arrays_to_explode (deref (rules σ) br) = [] →
  block_branch linker link_type apply_salt sql_select_expr probability
    br salted_br where_condition σ
  = Ok ((direct_statement linker sql_select_expr probability (rules σ)
           where_condition br salted_br, where_condition), σ).
Proof.
  intros Harrays. unfold block_branch. unfold_monad.
  by rewrite Harrays.
Qed.

Lemma block_salted_direct (br : ref) (salted : list string)
    (where_condition : string) (sqls : list string) (σ : Store) :
  arrays_to_explode (deref (rules σ) br) = [] →
  block_salted linker link_type apply_salt sql_select_expr probability
    br salted where_condition sqls σ
  = Ok ((where_condition,
         sqls ++ (direct_statement linker sql_select_expr probability (rules σ)
                    where_condition br <$> salted)), σ).
Proof.
  intros Harrays. revert sqls.
  induction salted as [|salted_br rest IH]; intros sqls.
  - simpl. unfold ret. by rewrite app_nil_r.
  - cbn [block_salted]. unfold mbind, M_bind, bind.
    rewrite block_branch_direct by done.
    rewrite IH. by rewrite <- app_assoc.
Qed.

Lemma block_rules_direct (brs : list ref) (where_condition : string)
    (sqls : list string) (σ : Store) :
  Forall (λ br, arrays_to_explode (deref (rules σ) br) = []) brs →
  block_rules linker link_type apply_salt sql_select_expr probability
    brs where_condition sqls σ
  = Ok ((where_condition,
         sqls ++ (brs ≫= λ br,
                    direct_statement linker sql_select_expr probability (rules σ)
                      where_condition br
                      <$> branches_of apply_salt (deref (rules σ) br))), σ).
Proof.
  intros Hdirect. revert sqls.
  induction Hdirect as [|br rest Hbr _ IH]; intros sqls.
  - simpl. unfold ret. by rewrite app_nil_r.
  - cbn [block_rules]. unfold_monad.
    fold (branches_of apply_salt (deref (rules σ) br)).
    rewrite block_salted_direct by done.
    rewrite IH. by rewrite bind_cons, app_assoc.
Qed.

End Direct_path.

Lemma deref_new_rule (h : arena) (br : BlockingRule) : deref (h ++ [br]) (length h) = br.
Proof. unfold deref. by apply list_lookup_total_middle. Qed.

(** ** The default rule *)

Lemma block_rules_default_rule `{Externals} (linker : Linker) (link_type : string)
    (apply_salt : bool) (sql_select_expr probability where_condition : string)
    (br : ref) (σ : Store) :
  deref (rules σ) br = BlockingRule_of_text "1=1" →
  block_rules linker link_type apply_salt sql_select_expr probability
    [br] where_condition [] σ
  = Ok ((where_condition,
         [direct_sql linker sql_select_expr probability (BlockingRule_of_text "1=1")
            "1=1" where_condition ""]), σ).
Proof.
  intros Hbr. rewrite block_rules_direct.
  - rewrite bind_cons. cbn [mbind list_bind]. unfold direct_statement.
    rewrite app_nil_r, Hbr. by destruct apply_salt.
  - constructor; [by rewrite Hbr|constructor].
Qed.

Lemma salting_warning_step `{Externals} (linker : Linker) (σ : Store) :
  (if salting_required (_settings_obj linker)
      && negb (bool_decide (class_name linker ∈ ["SparkLinker"]))
   then logger_warning
          "WARNING: Salting is not currently supported by this linker backend and will not be implemented for this run."
   else ret tt) σ
  = Ok (tt, with_salting_warning linker σ).
Proof. unfold with_salting_warning. by destruct (_ && _). Qed.

Lemma with_salting_warning_new_rule `{Externals} (linker : Linker) (σ : Store)
    (br : BlockingRule) :
  with_salting_warning linker (with_new_rule σ br)
  = with_new_rule (with_salting_warning linker σ) br.
Proof. unfold with_salting_warning. by destruct (_ && _). Qed.

Lemma rules_with_salting_warning `{Externals} (linker : Linker) (σ : Store) :
  rules (with_salting_warning linker σ) = rules σ.
Proof. unfold with_salting_warning. by destruct (_ && _). Qed.

(** C7: without rules the assembler works with one rule [1=1] that it
    creates; the run is, result and store alike, the run over the same
    store where the caller has put that rule and named it as the only rule.
    When the link mode has a base filter, the query is the single statement
    of the direct path with the join condition [(1=1)], the match key 0,
    that base filter and no exclusion clause. *)
Theorem no_rule_means_one_equals_one `{Externals} (linker : Linker) (σ : Store) :
  let default_rule := BlockingRule_of_text "1=1" in
  let probability :=
    if _deterministic_link_mode linker then ", 1.00 as match_probability" else "" in
  let sql_select_expr :=
    join ", " (_columns_to_select_for_blocking (_settings_obj linker)) in
  block_using_rules_sql (with_prediction_rules linker []) σ
  = block_using_rules_sql (with_prediction_rules linker [length (rules σ)])
      (with_new_rule σ default_rule)
  ∧ block_using_rules_sql (with_prediction_rules linker []) σ
    = match _sql_gen_where_condition (resolve_link_type linker)
              (_unique_id_input_columns (_settings_obj linker)) with
      | Ok where_condition =>
          (split_left_right linker;;
           ret (join "union all"
                  [direct_sql linker sql_select_expr probability default_rule
                     "1=1" where_condition ""]))
            (with_new_rule (with_salting_warning linker σ) default_rule)
      | Raise e => Raise e
      end.
Proof.
  intros default_rule probability sql_select_expr.
  assert (∀ brs (σ0 : Store),
    block_using_rules_sql (with_prediction_rules linker brs) σ0
    = match _sql_gen_where_condition (resolve_link_type linker)
              (_unique_id_input_columns (_settings_obj linker)) with
      | Ok where_condition =>
          match (match brs with
                 | [] => br ← new_rule default_rule; ret [br]
                 | _ :: _ => ret brs
                 end) (with_salting_warning linker σ0) with
          | Ok (brs', σ1) =>
              match block_rules (with_prediction_rules linker brs)
                      (resolve_link_type linker)
                      (bool_decide (class_name linker ∈ ["SparkLinker"]))
                      sql_select_expr probability brs' where_condition [] σ1 with
              | Ok ((_, sqls), σ2) =>
                  (split_left_right linker;; ret (join "union all" sqls)) σ2
              | Raise e => Raise e
              end
          | Raise e => Raise e
          end
      | Raise e => Raise e
      end) as Hrun.
  { intros brs σ0. unfold block_using_rules_sql.
    change (resolve_link_type (with_prediction_rules linker brs))
      with (resolve_link_type linker).
    unfold mbind at 1 2. unfold M_bind at 1 2. unfold bind at 1 2.
    unfold lift_result.
    cbn [with_prediction_rules _settings_obj _unique_id_input_columns
         salting_required class_name _columns_to_select_for_blocking
         _deterministic_link_mode].
    destruct (_sql_gen_where_condition _ _) as [where_condition|e]; [|done].
    rewrite salting_warning_step.
    unfold mbind at 1 2. unfold M_bind at 1 2. unfold bind at 1 2.
    cbn [with_prediction_rules _settings_obj _blocking_rule_for_training
         _blocking_rules_to_generate_predictions].
    destruct brs as [|b bs].
    - cbv [mbind M_bind bind new_rule ret].
      destruct (block_rules _ _ _ _ _ _ _ _ _) as [[[wc sqls] σ2]|e]; reflexivity.
    - cbv [mbind M_bind bind ret].
      destruct (block_rules _ _ _ _ _ _ _ _ _) as [[[wc sqls] σ2]|e]; reflexivity. }
  assert (block_using_rules_sql (with_prediction_rules linker []) σ
    = match _sql_gen_where_condition (resolve_link_type linker)
              (_unique_id_input_columns (_settings_obj linker)) with
      | Ok where_condition =>
          (split_left_right linker;;
           ret (join "union all"
                  [direct_sql linker sql_select_expr probability default_rule
                     "1=1" where_condition ""]))
            (with_new_rule (with_salting_warning linker σ) default_rule)
      | Raise e => Raise e
      end) as Hempty.
  { rewrite Hrun. destruct (_sql_gen_where_condition _ _) as [where_condition|e]; [|done].
    cbv [mbind M_bind bind new_rule ret].
    rewrite block_rules_default_rule.
    - reflexivity.
    - cbn [rules]. apply deref_new_rule. }
  split; [|exact Hempty].
  rewrite Hempty, Hrun.
  destruct (_sql_gen_where_condition _ _) as [where_condition|e]; [|done].
  rewrite with_salting_warning_new_rule.
  cbv [mbind M_bind bind ret].
  rewrite block_rules_default_rule.
  - reflexivity.
  - unfold with_new_rule. cbn [rules].
    rewrite <- (rules_with_salting_warning linker σ). apply deref_new_rule.
Qed.

(** ** The name of a materialised table of id pairs *)

Lemma pretty_N_char_is_digit (x : N) : sqlglot.is_digit (pretty_N_char x) = true.
Proof. unfold pretty_N_char. repeat case_match; reflexivity. Qed.

Lemma pretty_N_go_digits (x : N) (s : string) :
  all_chars sqlglot.is_digit s = true →
  all_chars sqlglot.is_digit (pretty_N_go x s) = true.
Proof.
  revert s. induction (N.lt_wf_0 x) as [x _ IH]. intros s Hs.
  destruct (decide (x = 0)%N) as [->|Hx]; [by rewrite pretty_N_go_0|].
  rewrite pretty_N_go_step by lia.
  apply IH; [apply N.div_lt; lia|].
  cbn [all_chars]. by rewrite pretty_N_char_is_digit.
Qed.

Lemma pretty_nat_digits (n : nat) : all_chars sqlglot.is_digit (pretty n) = true.
Proof.
  unfold pretty, pretty_nat, pretty, pretty_N.
  case_decide; [reflexivity|]. by apply pretty_N_go_digits.
Qed.

(** Two strings of digits followed by the same letter and then by
    anything: equal wholes have equal parts. *)
Lemma digits_then_letter_inj (a b u v : string) :
  all_chars sqlglot.is_digit a = true →
  all_chars sqlglot.is_digit b = true →
  a +:+ String "s" u = b +:+ String "s" v →
  a = b ∧ u = v.
Proof.
  revert b. induction a as [|c a IH]; intros [|d b] Ha Hb Heq.
  - by injection Heq.
  - injection Heq as <- _. cbn [all_chars] in Hb. by apply andb_prop in Hb as [? _].
  - injection Heq as -> _. cbn [all_chars] in Ha. by apply andb_prop in Ha as [? _].
  - cbn [all_chars] in Ha, Hb.
    apply andb_prop in Ha as [_ Ha]. apply andb_prop in Hb as [_ Hb].
    injection Heq as -> Heq. destruct (IH b Ha Hb Heq) as [-> ->]. done.
Qed.

Lemma ids_to_compare_name_inj_salted (br1 br2 : BlockingRule) (digest1 digest2 : string) :
  ids_to_compare_name br1 ("salt_id_" +:+ digest1)
  = ids_to_compare_name br2 ("salt_id_" +:+ digest2)
  ↔ match_key br1 = match_key br2 ∧ digest1 = digest2.
Proof.
  unfold ids_to_compare_name. split.
  - intros Heq. apply (inj (String.append _)) in Heq.
    apply digits_then_letter_inj in Heq as [Hkey Hrest];
      [|apply pretty_nat_digits..].
    split; [by apply (inj pretty)|].
    by apply (inj (String.append "alt_id_")) in Hrest.
  - by intros [-> ->].
Qed.

Lemma string_app_empty_r (s : string) : s +:+ "" = s.
Proof.
  induction s as [|c s IH]; [done|].
  change (String c (s +:+ "") = String c s). by rewrite IH.
Qed.

Lemma ids_to_compare_name_inj_unsalted (br1 br2 : BlockingRule) :
  ids_to_compare_name br1 "" = ids_to_compare_name br2 ""
  ↔ match_key br1 = match_key br2.
Proof.
  unfold ids_to_compare_name. rewrite !string_app_empty_r. split.
  - intros Heq. apply (inj (String.append _)) in Heq. by apply (inj pretty).
  - by intros ->.
Qed.

(** C9, as stated, fails: without salting (every linker but the Spark one)
    the name has no suffix.  Two runs on the array path with different
    predicates and different cache identifiers materialise the id pairs
    under the same name. *)
Lemma ids_to_compare_name_without_salt_collides :
  let run predicate uid :=
    block_using_rules_sql
      (example_linker_with_uid "DuckDBLinker" "dedupe_only" [0] uid)
      (example_store [example_array_rule predicate]) in
  "l.postcode = r.postcode" ≠ "l.surname = r.surname"
  ∧ "uid1" ≠ "uid2"
  ∧ enqueued_names (run "l.postcode = r.postcode" "uid1")
    = ["__splink__df_concat_with_tf_unnested"; "ids_to_compare_blocking_rule_0"]
  ∧ enqueued_names (run "l.surname = r.surname" "uid2")
    = ["__splink__df_concat_with_tf_unnested"; "ids_to_compare_blocking_rule_0"].
Proof. repeat split; try discriminate; vm_compute; reflexivity. Qed.

(** C9, amended: with salting the name is the match key of the rule
    followed by [salt_id_] and the first nine characters of the SHA-256
    digest of the salted predicate and the cache identifier: two names are
    equal exactly when the match keys and these truncated digests are, so
    that the same rule and cache identifier reproduce the name, and other
    predicates or cache identifiers give another name unless the truncated
    digests collide.  Without salting the name is the match key alone. *)
Theorem ids_to_compare_name_equal_iff `{Externals} (linker1 linker2 : Linker)
    (br1 br2 : BlockingRule) (salted_br1 salted_br2 : string) :
  let digest (linker : Linker) (salted_br : string) :=
    String.substring 0 9 (sha256_hexdigest (salted_br +:+ _cache_uid linker)) in
  salt_id_of linker1 true salted_br1 = "salt_id_" +:+ digest linker1 salted_br1
  ∧ salt_id_of linker1 false salted_br1 = ""
  ∧ (ids_to_compare_name br1 (salt_id_of linker1 true salted_br1)
     = ids_to_compare_name br2 (salt_id_of linker2 true salted_br2)
     ↔ match_key br1 = match_key br2
       ∧ digest linker1 salted_br1 = digest linker2 salted_br2)
  ∧ (ids_to_compare_name br1 (salt_id_of linker1 false salted_br1)
     = ids_to_compare_name br2 (salt_id_of linker2 false salted_br2)
     ↔ match_key br1 = match_key br2).
Proof.
  intros digest. split; [reflexivity|]. split; [reflexivity|]. split.
  - apply ids_to_compare_name_inj_salted.
  - apply ids_to_compare_name_inj_unsalted.
Qed.

(** ** The where-condition along a run *)








Section Array_path.

Context `{Externals}.

Variables (linker : Linker) (link_type : string) (apply_salt : bool).
Variables (sql_select_expr probability : string).

Lemma input_dataframe_of_cache_frame (σ σ' : Store) (df : SplinkDataFrame) :
  input_dataframe_of_cache σ = Ok (df, σ') →
  rules σ' = rules σ ∧ enqueued σ' = enqueued σ.
Proof.
  unfold input_dataframe_of_cache, call_backend.
  destruct (_intermediate_table_cache _ _); [by intros [= _ <-]|].
  destruct (_initialise_df_concat_with_tf _) as [[df' b]|e]; [|done].
  by intros [= _ <-].
Qed.


Hypothesis two_datasets : link_type = "two_dataset_link_only".





End Array_path.



(** ** What the salted variants select *)

Lemma passes_sql_and (a : truth) (b : bool) :
  passes (sql_and a (Some b)) = passes a && b.
Proof. by destruct a as [[]|], b. Qed.

Lemma passes_true (a : truth) : passes a = true ↔ a = Some true.
Proof. unfold passes. by rewrite bool_decide_eq_true. Qed.

(** The bucket of a salt in (0, 1] is one of 1, ..., n. *)
Lemma bucket_in_range (p : RowPair) (n : Z) :
  (1 ≤ n)%Z → (0 < salt_l p)%Q → (salt_l p <= 1)%Q →
  (1 ≤ bucket p n ≤ n)%Z.
Proof.
  intros Hn Hpos Hle. unfold bucket.
  assert (0 < inject_Z n)%Q as Hn'.
  { change 0%Q with (inject_Z 0). rewrite <- Zlt_Qlt. lia. }
  split.
  - assert (0 < inject_Z (Qceiling (salt_l p * inject_Z n)))%Q as Hc.
    { eapply Qlt_le_trans; [|apply Qle_ceiling].
      by apply Qmult_lt_0_compat. }
    change 0%Q with (inject_Z 0) in Hc. rewrite <- Zlt_Qlt in Hc. lia.
  - rewrite <- (Qceiling_Z n) at 2. apply Qceiling_resp_le.
    rewrite <- (Qmult_1_l (inject_Z n)) at 2.
    apply Qmult_le_compat_r; [done|]. by apply Qlt_le_weak.
Qed.

Lemma salted_clauses_buckets (self : BlockingRule) :
  salting_partitions self ≠ 1%Z →
  salted_clauses self
  = Salted (blocking_rule self) (salting_partitions self)
      <$> seqZ 1 (salting_partitions self).
Proof.
  intros Hone. unfold salted_clauses, range. rewrite decide_False by done.
  change (seqZ 1 (salting_partitions self))
    with (seqZ (1 + 0) (salting_partitions self)).
  rewrite <- fmap_add_seqZ, <- list_fmap_compose.
  apply list_fmap_ext. intros _ n _. simpl. f_equal. lia.
Qed.

(** A pair passes a salted variant when it passes the predicate and the
    variant is the one of its bucket. *)
Lemma passes_salted_clause (self : BlockingRule) (p : RowPair) (c : on_clause) :
  c ∈ salted_clauses self →
  passes (eval_on p c) = true →
  passes (value_of p (blocking_rule self)) = true.
Proof.
  unfold salted_clauses. case_decide.
  - intros ->%list_elem_of_singleton. done.
  - intros (n & -> & _)%list_elem_of_fmap. cbn [eval_on].
    rewrite passes_sql_and. by intros [? _]%andb_prop.
Qed.

(** C6, as stated, fails: with two partitions, a left record whose salt is
    0 has bucket 0, which is neither bucket 1 nor bucket 2.  A pair with
    such a left record that satisfies the predicate is selected by none of
    the salted variants. *)
Lemma salted_variants_drop_salt_zero :
  let self := BlockingRule__init__ "l.first_name = r.first_name" 2 None [] in
  let p := {| value_of := λ _, Some true; salt_l := 0; ids_in := λ _, false |} in
  passes (value_of p (blocking_rule self)) = true
  ∧ salted_blocking_rules self
    = ["l.first_name = r.first_name and ceiling(l.__splink_salt * 2) = 1";
       "l.first_name = r.first_name and ceiling(l.__splink_salt * 2) = 2"]
  ∧ salted_blocking_rules self = render_on <$> salted_clauses self
  ∧ bucket p 2 = 0%Z
  ∧ Forall (λ c, passes (eval_on p c) = false) (salted_clauses self).
Proof.
  repeat split; try (vm_compute; reflexivity).
  repeat constructor.
Qed.

(** C6, amended: for a rule with at least one partition and a pair whose
    left record has its salt in (0, 1] (any salt, when the rule has one
    partition), some salted variant of the predicate selects the pair
    exactly when the predicate does. *)
Theorem salted_variants_select_the_same_pairs (self : BlockingRule) (p : RowPair) :
  (1 ≤ salting_partitions self)%Z →
  salting_partitions self = 1%Z ∨ ((0 < salt_l p)%Q ∧ (salt_l p <= 1)%Q) →
  salted_blocking_rules self = render_on <$> salted_clauses self
  ∧ ((∃ c, c ∈ salted_clauses self ∧ passes (eval_on p c) = true)
     ↔ passes (value_of p (blocking_rule self)) = true).
Proof.
  intros Hpartitions Hsalt. split; [apply salted_blocking_rules_render|]. split.
  - intros (c & Hc & Hpass). by eapply passes_salted_clause.
  - intros Hpass.
    destruct (decide (salting_partitions self = 1%Z)) as [Hone|Hmany].
    + exists (Unsalted (blocking_rule self)). split; [|done].
      unfold salted_clauses. rewrite decide_True by done. by left.
    + destruct Hsalt as [?|[Hpos Hle]]; [done|].
      pose proof (bucket_in_range p _ Hpartitions Hpos Hle) as Hbucket.
      exists (Salted (blocking_rule self) (salting_partitions self)
                (bucket p (salting_partitions self))).
      split.
      * rewrite salted_clauses_buckets by done.
        apply list_elem_of_fmap_2, elem_of_seqZ. lia.
      * cbn [eval_on]. rewrite passes_sql_and, Hpass.
        by rewrite bool_decide_true.
Qed.

(** The amended statement at work: three partitions and the salt 1/2. *)
Lemma salted_variants_select_the_same_pairs_example :
  let self := BlockingRule__init__ "l.first_name = r.first_name" 3 None [] in
  let p := {| value_of := λ _, Some true; salt_l := 1 # 2; ids_in := λ _, false |} in
  salted_blocking_rules self = render_on <$> salted_clauses self
  ∧ ((∃ c, c ∈ salted_clauses self ∧ passes (eval_on p c) = true)
     ↔ passes (value_of p (blocking_rule self)) = true).
Proof.
  intros self p.
  apply (salted_variants_select_the_same_pairs self p).
  - vm_compute. discriminate.
  - right. split; [reflexivity|vm_compute; discriminate].
Defined.

(** ** Compositions of rules *)




Lemma and_not_preceding_rules_sql_render (h : arena) (self : BlockingRule)
    (linker : Linker) :
  and_not_preceding_rules_sql h self linker
  = render_and_not (exclusions_of h self linker).
Proof.
  unfold and_not_preceding_rules_sql, render_and_not, exclusions_of.
  destruct (preceding_rules self) as [|br brs]; [done|].
  rewrite <- list_fmap_compose.
  rewrite (list_fmap_ext
             (λ br, exclude_from_following_rules_sql (deref h br) linker)
             (render_exclusion ∘ λ br, exclusion_of (deref h br) linker)
             (br :: brs));
    [done|].
  intros _ j _. apply exclude_from_following_rules_sql_render.
Qed.


(** ** Lists: filters of images and of concatenations *)



Lemma fmap_bind {A B C} (f : B → C) (g : A → list B) (l : list A) :
  f <$> (l ≫= g) = l ≫= λ x, f <$> g x.
Proof.
  induction l as [|x l IH]; [done|].
  by rewrite !bind_cons, fmap_app, IH.
Qed.



(** ** The statements of a composition of rules of the direct path *)

Lemma branches_of_render (apply_salt : bool) (self : BlockingRule) :
  branches_of apply_salt self = render_on <$> on_clauses apply_salt self.
Proof.
  unfold branches_of, on_clauses.
  destruct apply_salt; [apply salted_blocking_rules_render|done].
Qed.

Lemma block_rules_statements `{Externals} (linker : Linker) (link_type : string)
    (apply_salt : bool) (sql_select_expr probability where_condition : string)
    (brs : list ref) (σ : Store) :
  Forall (λ br, arrays_to_explode (deref (rules σ) br) = []) brs →
  block_rules linker link_type apply_salt sql_select_expr probability
    brs where_condition [] σ
  = Ok ((where_condition,
         render_statement linker sql_select_expr probability
           <$> statements (rules σ) linker apply_salt where_condition brs), σ).
Proof.
  intros Hdirect. rewrite block_rules_direct by done.
  rewrite app_nil_l. do 3 f_equal.
  unfold statements. rewrite fmap_bind.
  apply list_bind_ext; [|done]. intros br.
  unfold statements_of_rule.
  rewrite branches_of_render, <- !list_fmap_compose.
  apply list_fmap_ext. intros _ c _. unfold render_statement, direct_statement. cbn.
  by rewrite and_not_preceding_rules_sql_render.
Qed.

(** ** Which statement emits a pair *)








(** ** Exclusion of the pairs of earlier rules *)




(** * Further properties of the module *)

(** ** Serialising a rule and reading it back *)

Lemma string_length_app (s1 s2 : string) :
  String.length (s1 +:+ s2) = String.length s1 + String.length s2.
Proof.
  induction s1 as [|c s1 IH]; [done|].
  change (S (String.length (s1 +:+ s2)) = S (String.length s1 + String.length s2)).
  by rewrite IH.
Qed.

Lemma string_length_substring_0 (n : nat) (s : string) :
  String.length (String.substring 0 n s) = n `min` String.length s.
Proof.
  revert s. induction n as [|n IH]; intros [|c s]; simpl; try done.
  by rewrite IH.
Qed.


Lemma dialect_invariant_sql_dialect (self : BlockingRule) :
  dialect_invariant self →
  (if truthy (sql_dialect self) then sql_dialect self else None) = sql_dialect self.
Proof.
  unfold dialect_invariant, sql_dialect. intros ->.
  by destruct (sqlglot_dialect self) as [[|c d]|].
Qed.

(** X1.  [as_dict] followed by [blocking_rule_to_obj] never raises and
    gives back a rule with the same predicate, the same dialect and the
    same arrays to explode; the number of salting partitions comes back
    only when it is above 1 and the dialect is ["spark"], otherwise the
    rebuilt rule has 1; the rebuilt rule has no preceding rules and an
    empty cache, and it serialises to the same dict. *)
Theorem as_dict_round_trip (self : BlockingRule) :
  dialect_invariant self →
  ∃ br,
    blocking_rule_to_obj (AsDict (as_dict self)) = Ok br
    ∧ blocking_rule br = blocking_rule self
    ∧ sql_dialect br = sql_dialect self
    ∧ arrays_to_explode br = arrays_to_explode self
    ∧ salting_partitions br
      = (if bool_decide (1 < salting_partitions self)%Z
            && bool_decide (sql_dialect self = Some "spark")
         then salting_partitions self else 1%Z)
    ∧ preceding_rules br = []
    ∧ ids_to_compare br = []
    ∧ as_dict br = as_dict self.
Proof.
  intros Hinv. eexists. split; [reflexivity|].
  pose proof (dialect_invariant_sql_dialect self Hinv) as Hd.
  assert (Harr : dict_get (dict_arrays_to_explode (as_dict self)) []
                 = arrays_to_explode self).
  { unfold as_dict; simpl. by destruct (arrays_to_explode self). }
  assert (Hsalt : dict_get (dict_salting_partitions (as_dict self)) 1%Z
                  = if bool_decide (1 < salting_partitions self)%Z
                       && bool_decide (sql_dialect self = Some "spark")
                    then salting_partitions self else 1%Z).
  { unfold as_dict; simpl.
    by destruct (bool_decide (1 < salting_partitions self)%Z
                 && bool_decide (sql_dialect self = Some "spark")). }
  repeat split; try done.
  unfold as_dict at 1.
  cbn [BlockingRule__init__ blocking_rule sql_dialect _sql_dialect
       salting_partitions arrays_to_explode].
  change (dict_get (dict_sql_dialect (as_dict self)) None) with (sql_dialect self).
  change (dict_get (dict_blocking_rule (as_dict self)) None)
    with (Some (blocking_rule self)).
  cbn [dict_get]. rewrite Hd, Harr, Hsalt.
  unfold as_dict. f_equal.
  destruct (bool_decide (1 < salting_partitions self)%Z) eqn:H1;
    destruct (bool_decide (sql_dialect self = Some "spark")) eqn:H2;
    cbn [andb]; rewrite ?H1, ?H2; try done.
Qed.

Lemma as_dict_round_trip_example :
  let self := BlockingRule__init__ "l.a = r.a" 4 (Some "duckdb") ["a"] in
  dialect_invariant self
  ∧ ∃ br,
      blocking_rule_to_obj (AsDict (as_dict self)) = Ok br
      ∧ blocking_rule br = blocking_rule self
      ∧ sql_dialect br = sql_dialect self
      ∧ arrays_to_explode br = arrays_to_explode self
      ∧ salting_partitions br
        = (if bool_decide (1 < salting_partitions self)%Z
              && bool_decide (sql_dialect self = Some "spark")
           then salting_partitions self else 1%Z)
      ∧ preceding_rules br = []
      ∧ ids_to_compare br = []
      ∧ as_dict br = as_dict self.
Proof.
  split; [reflexivity|].
  apply (as_dict_round_trip (BlockingRule__init__ "l.a = r.a" 4 (Some "duckdb") ["a"])).
  reflexivity.
Defined.

(** X2.  The completed form of a rule is always accepted by
    [blocking_rule_to_obj] and keeps the predicate.  For a rule of dialect
    ["spark"] with at most one salting partition the completed form is the
    bare predicate, so that the rebuilt rule has no dialect and no arrays
    to explode; for every other rule the dialect and the arrays come
    back. *)
Theorem as_completed_dict_rebuilds (self : BlockingRule) :
  dialect_invariant self →
  ∃ br,
    blocking_rule_to_obj (_as_completed_dict self) = Ok br
    ∧ blocking_rule br = blocking_rule self
    ∧ if bool_decide (salting_partitions self ≤ 1)%Z
         && bool_decide (sql_dialect self = Some "spark")
      then sql_dialect br = None
           ∧ arrays_to_explode br = []
           ∧ salting_partitions br = 1%Z
      else sql_dialect br = sql_dialect self
           ∧ arrays_to_explode br = arrays_to_explode self.
Proof.
  intros Hinv. pose proof (dialect_invariant_sql_dialect self Hinv) as Hd.
  unfold _as_completed_dict.
  destruct (bool_decide (sql_dialect self = Some "spark")) eqn:Hspark;
    (destruct (decide (1 < salting_partitions self)%Z) as [Hlt|Hlt];
     [rewrite (bool_decide_eq_true_2 (1 < _)%Z) by done
     |rewrite (bool_decide_eq_false_2 (1 < _)%Z) by done]);
    cbn [negb andb].
  - rewrite bool_decide_eq_false_2 by lia. cbn [andb].
    eexists. split; [reflexivity|]. split; [done|]. split; [done|].
    unfold as_dict; simpl. by destruct (arrays_to_explode self).
  - rewrite bool_decide_eq_true_2 by lia. cbn [andb].
    eexists. split; [reflexivity|]. done.
  - rewrite andb_false_r.
    eexists. split; [reflexivity|]. split; [done|]. split; [done|].
    unfold as_dict; simpl. by destruct (arrays_to_explode self).
  - rewrite andb_false_r.
    eexists. split; [reflexivity|]. split; [done|]. split; [done|].
    unfold as_dict; simpl. by destruct (arrays_to_explode self).
Qed.

Lemma as_completed_dict_rebuilds_example :
  let self := BlockingRule__init__ "l.a = r.a" 1 (Some "spark") ["a"] in
  dialect_invariant self
  ∧ ∃ br,
      blocking_rule_to_obj (_as_completed_dict self) = Ok br
      ∧ blocking_rule br = blocking_rule self
      ∧ if bool_decide (salting_partitions self ≤ 1)%Z
           && bool_decide (sql_dialect self = Some "spark")
        then sql_dialect br = None
             ∧ arrays_to_explode br = []
             ∧ salting_partitions br = 1%Z
        else sql_dialect br = sql_dialect self
             ∧ arrays_to_explode br = arrays_to_explode self.
Proof.
  split; [reflexivity|].
  apply (as_completed_dict_rebuilds
           (BlockingRule__init__ "l.a = r.a" 1 (Some "spark") ["a"])).
  reflexivity.
Defined.

(** X3.  A declaration that is not a rule object and not a dict is read as
    the dict that holds only the predicate: the two give the same rule,
    which has one salting partition, no dialect, no arrays to explode and
    no preceding rules. *)
Theorem blocking_rule_to_obj_text_is_minimal_dict (text : string) :
  blocking_rule_to_obj (AsText text)
  = blocking_rule_to_obj
      (AsDict {| dict_blocking_rule := Some (Some text);
                 dict_sql_dialect := None;
                 dict_salting_partitions := None;
                 dict_arrays_to_explode := None |})
  ∧ blocking_rule_to_obj (AsText text)
    = blocking_rule_to_obj (AsDict (as_dict (BlockingRule_of_text text)))
  ∧ _as_completed_dict (BlockingRule_of_text text)
    = AsDict (as_dict (BlockingRule_of_text text)).
Proof. done. Qed.



(** X5.  The printed form of a rule without a description starts with
    [<Custom blocking rule using SQL: ], ends with [>], and has at most 112
    characters whatever the length of the predicate. *)
Theorem repr_is_bounded (self : BlockingRule) :
  __repr__ None self
  = "<Custom blocking rule using SQL: " +:+ _abbreviated_sql self 75 +:+ ">"
  ∧ String.length (__repr__ None self) ≤ 112.
Proof.
  split; [done|].
  unfold __repr__, _human_readable_succinct, descr.
  rewrite !string_length_app.
  change (String.length "<") with 1. change (String.length ">") with 1.
  change (String.length "Custom") with 6.
  change (String.length " blocking rule using SQL: ") with 26.
  unfold _abbreviated_sql. case_bool_decide as Hlen.
  - unfold slice_to. rewrite bool_decide_eq_true_2 by done.
    rewrite string_length_app, string_length_substring_0.
    change (String.length "...") with 3. lia.
  - lia.
Qed.

(** ** The two datasets of a link *)

Lemma insert_sorted_perm (x : string) (l : list string) :
  insert_sorted x l ≡ₚ x :: l.
Proof.
  induction l as [|y l IH]; [done|]. simpl.
  destruct (String.leb x y); [done|].
  rewrite IH. apply Permutation_swap.
Qed.

Lemma sorted_perm (l : list string) : sorted l ≡ₚ l.
Proof.
  induction l as [|x l IH]; [done|]. simpl.
  by rewrite insert_sorted_perm, IH.
Qed.

Lemma insert_sorted_sorted (x : string) (l : list string) :
  StronglySorted String.le l → StronglySorted String.le (insert_sorted x l).
Proof.
  induction 1 as [|y l Hl IH Hy]; simpl.
  - by repeat constructor.
  - destruct (String.leb x y) eqn:Hxy.
    + constructor; [by constructor|].
      assert (Hle : String.le x y) by (unfold String.le; by rewrite Hxy).
      constructor; [done|].
      eapply Forall_impl; [exact Hy|]. intros z Hz. by transitivity y.
    + constructor; [done|].
      rewrite insert_sorted_perm. constructor; [|done].
      destruct (total String.le x y) as [Hle|Hle]; [|done].
      unfold String.le in Hle. by rewrite Hxy in Hle.
Qed.

Lemma sorted_sorted (l : list string) : StronglySorted String.le (sorted l).
Proof.
  induction l as [|x l IH]; simpl; [constructor|by apply insert_sorted_sorted].
Qed.

Lemma sorted_keys_length (tables : gmap string SplinkDataFrame) :
  length (sorted (elements (dom tables))) = size tables.
Proof. by rewrite sorted_perm, <- size_dom. Qed.

(** X6.  When the two datasets are split and the linker has at least two
    input tables, the left dataset is the table with the smallest key of
    [_input_tables_dict] and the right dataset the table with the next
    key, in the order of [sorted]; exactly two statements are enqueued,
    under the names that end in [_left] and [_right], and no rule is
    touched. *)
Theorem split_left_right_takes_the_two_smallest_keys `{Externals}
    (linker : Linker) (σ : Store) :
  splits_datasets linker = true →
  2 ≤ size (_input_tables_dict linker) →
  ∃ k_l k_r df_l df_r,
    _input_tables_dict linker !! k_l = Some df_l
    ∧ _input_tables_dict linker !! k_r = Some df_r
    ∧ String.le k_l k_r ∧ k_l ≠ k_r
    ∧ (∀ k, is_Some (_input_tables_dict linker !! k) →
         k = k_l ∨ String.le k_r k)
    ∧ split_left_right linker σ
      = Ok (tt,
            {| rules := rules σ;
               backend :=
                 _enqueue_sql (dataset_half_sql linker df_r)
                   (dataset_half_name linker "_right")
                   (_enqueue_sql (dataset_half_sql linker df_l)
                      (dataset_half_name linker "_left") (backend σ));
               enqueued :=
                 enqueued σ
                 ++ [(dataset_half_sql linker df_l, dataset_half_name linker "_left");
                     (dataset_half_sql linker df_r, dataset_half_name linker "_right")];
               warnings := warnings σ |}).
Proof.
  intros Hsplit Hsize.
  pose proof (sorted_keys_length (_input_tables_dict linker)) as Hlen.
  pose proof (sorted_sorted (elements (dom (_input_tables_dict linker)))) as Hsorted.
  pose proof (sorted_perm (elements (dom (_input_tables_dict linker)))) as Hperm.
  assert (Hnodup : NoDup (sorted (elements (dom (_input_tables_dict linker))))).
  { rewrite Hperm. apply NoDup_elements. }
  assert (Hin : ∀ k, k ∈ sorted (elements (dom (_input_tables_dict linker)))
                     ↔ is_Some (_input_tables_dict linker !! k)).
  { intros k. by rewrite Hperm, elem_of_elements, elem_of_dom. }
  unfold split_left_right. unfold splits_datasets in Hsplit. rewrite Hsplit.
  cbv zeta.
  destruct (sorted (elements (dom (_input_tables_dict linker))))
    as [|k0 [|k1 keys]]; simpl in Hlen; [lia|lia|].
  destruct (proj1 (Hin k0)) as [df_l Hl]; [left|].
  destruct (proj1 (Hin k1)) as [df_r Hr]; [right; left|].
  rewrite Hl, Hr.
  apply StronglySorted_inv in Hsorted as [Hsorted Hk0].
  apply StronglySorted_inv in Hsorted as [_ Hk1].
  apply NoDup_cons in Hnodup as [Hk0' _].
  exists k0, k1, df_l, df_r.
  split; [done|]. split; [done|].
  split; [by apply Forall_cons in Hk0 as [? _]|].
  split; [intros ->; apply Hk0'; left|].
  split.
  - intros k Hk. apply Hin in Hk.
    apply elem_of_cons in Hk as [->|Hk]; [by left|right].
    apply elem_of_cons in Hk as [->|Hk]; [done|].
    by eapply Forall_forall in Hk1.
  - unfold dataset_half_sql, dataset_half_name.
    cbv [mbind M_bind bind enqueue_sql]. cbn [rules backend enqueued warnings].
    by rewrite <- app_assoc.
Qed.

Lemma split_left_right_takes_the_two_smallest_keys_example :
  let linker :=
    example_two_dataset_linker
      {[ "people_b" := example_table "people_b";
         "people_a" := example_table "people_a" ]} None [] in
  let σ := example_store [] in
  splits_datasets linker = true
  ∧ 2 ≤ size (_input_tables_dict linker)
  ∧ ∃ k_l k_r df_l df_r,
      _input_tables_dict linker !! k_l = Some df_l
      ∧ _input_tables_dict linker !! k_r = Some df_r
      ∧ String.le k_l k_r ∧ k_l ≠ k_r
      ∧ (∀ k, is_Some (_input_tables_dict linker !! k) →
           k = k_l ∨ String.le k_r k)
      ∧ split_left_right linker σ
        = Ok (tt,
              {| rules := rules σ;
                 backend :=
                   _enqueue_sql (dataset_half_sql linker df_r)
                     (dataset_half_name linker "_right")
                     (_enqueue_sql (dataset_half_sql linker df_l)
                        (dataset_half_name linker "_left") (backend σ));
                 enqueued :=
                   enqueued σ
                   ++ [(dataset_half_sql linker df_l, dataset_half_name linker "_left");
                       (dataset_half_sql linker df_r, dataset_half_name linker "_right")];
                 warnings := warnings σ |}).
Proof.
  split; [reflexivity|]. split; [vm_compute; lia|].
  apply (@split_left_right_takes_the_two_smallest_keys example_externals
           (example_two_dataset_linker
              {[ "people_b" := example_table "people_b";
                 "people_a" := example_table "people_a" ]} None [])
           (example_store [])).
  - reflexivity.
  - vm_compute. lia.
Defined.

(** X7.  With fewer than two input tables, the split of the two datasets
    raises [IndexError] and enqueues nothing; when the linker is not in the
    mode that splits, nothing happens at all. *)
Theorem split_left_right_needs_two_tables `{Externals}
    (linker : Linker) (σ : Store) :
  size (_input_tables_dict linker) < 2 →
  split_left_right linker σ
  = if splits_datasets linker then Raise IndexError else Ok (tt, σ).
Proof.
  intros Hsize.
  pose proof (sorted_keys_length (_input_tables_dict linker)) as Hlen.
  unfold split_left_right, splits_datasets.
  destruct (_two_dataset_link_only linker
            && negb (_find_new_matches_mode linker)
            && negb (_compare_two_records_mode linker)); [|done].
  cbv zeta.
  destruct (sorted (elements (dom (_input_tables_dict linker))))
    as [|k0 [|k1 keys]]; simpl in Hlen; [done|done|lia].
Qed.

Lemma split_left_right_needs_two_tables_example :
  let linker :=
    example_two_dataset_linker {[ "people_a" := example_table "people_a" ]} None [] in
  let σ := example_store [] in
  size (_input_tables_dict linker) < 2
  ∧ split_left_right linker σ
    = if splits_datasets linker then Raise IndexError else Ok (tt, σ).
Proof.
  split; [vm_compute; lia|].
  apply (@split_left_right_needs_two_tables example_externals
           (example_two_dataset_linker
              {[ "people_a" := example_table "people_a" ]} None [])
           (example_store [])).
  vm_compute. lia.
Defined.

(** ** The base filter of a run *)

(** X8.  [_sql_gen_where_condition] raises in two cases only: [IndexError]
    for the link type [link_only] without id columns, and
    [UnboundLocalError] on [where_condition] for a link type that is none
    of the five names. *)
Theorem sql_gen_where_condition_raises `{Externals} (link_type : string)
    (unique_id_cols : list InputColumn) (e : exn) :
  _sql_gen_where_condition link_type unique_id_cols = Raise e
  ↔ ((link_type = "link_only" ∧ unique_id_cols = [] ∧ e = IndexError)
     ∨ ((link_type ∉ ["two_dataset_link_only"; "self_link"; "link_and_dedupe";
                      "dedupe_only"; "link_only"])
        ∧ e = UnboundLocalError "where_condition")).
Proof.
  unfold _sql_gen_where_condition. cbv zeta.
  destruct (decide (link_type ∈ ["two_dataset_link_only"; "self_link"])) as [H1|H1].
  { split; [done|]. rewrite !elem_of_cons, elem_of_nil in *.
    intros [(-> & _)|[Hnot _]]; [by destruct H1 as [|[|]]|tauto]. }
  destruct (decide (link_type ∈ ["link_and_dedupe"; "dedupe_only"])) as [H2|H2].
  { split; [done|]. rewrite !elem_of_cons, elem_of_nil in *.
    intros [(-> & _)|[Hnot _]]; [by destruct H2 as [|[|]]|tauto]. }
  destruct (decide (link_type = "link_only")) as [H3|H3].
  { destruct unique_id_cols as [|c cs].
    - split; [intros [= <-]; by left|].
      rewrite !elem_of_cons, elem_of_nil.
      intros [(_ & _ & ->)|[Hnot _]]; [done|tauto].
    - split; [done|]. rewrite !elem_of_cons, elem_of_nil.
      intros [(_ & [=] & _)|[Hnot _]]. tauto. }
  split.
  - intros [= <-]. right. split; [|done].
    rewrite !elem_of_cons, elem_of_nil in *. tauto.
  - intros [(-> & _)|[_ ->]]; done.
Qed.

(** X9.  Without the flags [_two_dataset_link_only] and [_self_link_mode],
    a link type of the settings that is none of the five names makes
    [block_using_rules_sql] raise [UnboundLocalError], whatever the rules
    are. *)
Theorem block_using_rules_sql_unknown_link_type `{Externals}
    (linker : Linker) (σ : Store) :
  _two_dataset_link_only linker = false →
  _self_link_mode linker = false →
  _link_type (_settings_obj linker)
    ∉ ["two_dataset_link_only"; "self_link"; "link_and_dedupe";
       "dedupe_only"; "link_only"] →
  block_using_rules_sql linker σ = Raise (UnboundLocalError "where_condition").
Proof.
  intros Htwo Hself Hnot.
  unfold block_using_rules_sql, resolve_link_type. rewrite Htwo, Hself.
  cbv [mbind M_bind bind lift_result].
  unfold _sql_gen_where_condition. cbv zeta.
  rewrite !elem_of_cons, elem_of_nil in Hnot.
  rewrite decide_False by (rewrite !elem_of_cons, elem_of_nil; tauto).
  rewrite decide_False by (rewrite !elem_of_cons, elem_of_nil; tauto).
  rewrite decide_False by tauto.
  done.
Qed.

Lemma block_using_rules_sql_unknown_link_type_example :
  let linker := example_linker "DuckDBLinker" "dedupe" [] in
  let σ := example_store [] in
  _two_dataset_link_only linker = false
  ∧ _self_link_mode linker = false
  ∧ (_link_type (_settings_obj linker)
       ∉ ["two_dataset_link_only"; "self_link"; "link_and_dedupe";
          "dedupe_only"; "link_only"])
  ∧ block_using_rules_sql linker σ = Raise (UnboundLocalError "where_condition").
Proof.
  split; [reflexivity|]. split; [reflexivity|].
  assert (Hnot : _link_type (_settings_obj (example_linker "DuckDBLinker" "dedupe" []))
                 ∉ ["two_dataset_link_only"; "self_link"; "link_and_dedupe";
                    "dedupe_only"; "link_only"]).
  { apply not_elem_of_cons. split; [done|].
    apply not_elem_of_cons. split; [done|].
    apply not_elem_of_cons. split; [done|].
    apply not_elem_of_cons. split; [done|].
    apply not_elem_of_cons. split; [done|].
    apply not_elem_of_nil. }
  split; [exact Hnot|].
  exact (@block_using_rules_sql_unknown_link_type example_externals
           (example_linker "DuckDBLinker" "dedupe" []) (example_store [])
           eq_refl eq_refl Hnot).
Defined.

(** X10.  Each of the flags [_self_link_mode] and [_two_dataset_link_only]
    overrides the link type of the settings, the first before the second,
    and the base filter is then [ where 1=1 ]: it cannot fail, whatever
    the settings hold. *)
Theorem link_type_flags_give_the_trivial_filter `{Externals} (linker : Linker) :
  _self_link_mode linker || _two_dataset_link_only linker = true →
  resolve_link_type linker
  = (if _self_link_mode linker then "self_link" else "two_dataset_link_only")
  ∧ _sql_gen_where_condition (resolve_link_type linker)
      (_unique_id_input_columns (_settings_obj linker))
    = Ok " where 1=1 ".
Proof.
  unfold resolve_link_type.
  destruct (_self_link_mode linker), (_two_dataset_link_only linker); done.
Qed.

Lemma link_type_flags_give_the_trivial_filter_example :
  let linker := example_two_dataset_linker ∅ None [] in
  _self_link_mode linker || _two_dataset_link_only linker = true
  ∧ resolve_link_type linker
    = (if _self_link_mode linker then "self_link" else "two_dataset_link_only")
  ∧ @_sql_gen_where_condition example_externals (resolve_link_type linker)
      (_unique_id_input_columns (_settings_obj linker))
    = Ok " where 1=1 ".
Proof.
  split; [reflexivity|].
  exact (@link_type_flags_give_the_trivial_filter example_externals
           (example_two_dataset_linker ∅ None []) eq_refl).
Defined.

(** ** What a run does to the rules and to the pipeline *)

Lemma extends_cache_refl (r : BlockingRule) : extends_cache r r.
Proof. by exists []. Qed.

Lemma extends_cache_trans (r1 r2 r3 : BlockingRule) :
  extends_cache r1 r2 → extends_cache r2 r3 → extends_cache r1 r3.
Proof. intros [m1 ->] [m2 ->]. exists (m1 ++ m2). by rewrite foldl_app. Qed.

Lemma extends_cache_attributes (r r' : BlockingRule) :
  extends_cache r r' →
  (∃ more, ids_to_compare r' = ids_to_compare r ++ more)
  ∧ static r' = static r
  ∧ sqlglot_dialect r' = sqlglot_dialect r
  ∧ sql_dialect r' = sql_dialect r.
Proof.
  intros [more ->]. revert r.
  induction more as [|ids more IH]; intros r; cbn [foldl].
  - split; [by exists []; rewrite app_nil_r|done].
  - destruct (IH (append_ids_to_compare r ids)) as ([more' H1] & H2 & H3 & H4).
    rewrite H1, H2, H3, H4. split; [|done].
    exists (ids :: more'). cbn [append_ids_to_compare ids_to_compare].
    by rewrite <- app_assoc.
Qed.

Lemma only_caches_grow_refl (h : arena) : only_caches_grow h h.
Proof.
  unfold only_caches_grow. induction h; constructor; [apply extends_cache_refl|done].
Qed.

Lemma only_caches_grow_trans (h1 h2 h3 : arena) :
  only_caches_grow h1 h2 → only_caches_grow h2 h3 → only_caches_grow h1 h3.
Proof.
  unfold only_caches_grow. intros H12. revert h3.
  induction H12 as [|r1 r2 h1 h2 Hr _ IH]; intros h3 H23.
  - by inversion H23.
  - inversion H23 as [|? r3 ? h3' Hr' H23']; subst.
    constructor; [by eapply extends_cache_trans|by apply IH].
Qed.

Lemma only_caches_grow_deref (h h' : arena) (br : ref) :
  only_caches_grow h h' → extends_cache (deref h br) (deref h' br).
Proof.
  unfold only_caches_grow, deref. intros Hgrow. rewrite !list_lookup_total_alt.
  destruct (h !! br) as [r|] eqn:Hr.
  - destruct (Forall2_lookup_l _ _ _ _ _ Hgrow Hr) as (r' & -> & Hext). done.
  - apply Forall2_length in Hgrow.
    rewrite (proj2 (lookup_ge_None h' br)); [apply extends_cache_refl|].
    apply lookup_ge_None in Hr. lia.
Qed.

Lemma only_caches_grow_append_ids (h : arena) (br : ref) (ids : SplinkDataFrame) :
  only_caches_grow h (<[br := append_ids_to_compare (deref h br) ids]> h).
Proof.
  unfold only_caches_grow.
  destruct (decide (br < length h)) as [Hlt|Hge].
  - destruct (lookup_lt_is_Some_2 h br Hlt) as [r Hr].
    rewrite <- (list_insert_id h br r Hr) at 1.
    apply Forall2_insert; [apply only_caches_grow_refl|].
    unfold deref. rewrite (list_lookup_total_correct _ _ _ Hr). by exists [ids].
  - rewrite list_insert_ge by lia. apply only_caches_grow_refl.
Qed.

Lemma branches_of_grow (apply_salt : bool) (r r' : BlockingRule) :
  extends_cache r r' → branches_of apply_salt r' = branches_of apply_salt r.
Proof.
  intros Hext. apply extends_cache_attributes in Hext as (_ & Hstatic & _).
  unfold static in Hstatic. injection Hstatic as Hp _ Hsalt _.
  unfold branches_of, salted_blocking_rules. by rewrite Hp, Hsalt.
Qed.

Lemma branch_count_grow (apply_salt : bool) (h h' : arena) (brs : list ref) :
  only_caches_grow h h' →
  branch_count apply_salt h' brs = branch_count apply_salt h brs.
Proof.
  intros Hgrow. unfold branch_count. f_equal. apply list_fmap_ext.
  intros _ br _. f_equal. apply branches_of_grow. by apply only_caches_grow_deref.
Qed.

Lemma split_left_right_frame `{Externals} (linker : Linker) (σ σ' : Store) :
  split_left_right linker σ = Ok (tt, σ') →
  rules σ' = rules σ
  ∧ warnings σ' = warnings σ
  ∧ enqueued σ `prefix_of` enqueued σ'
  ∧ (splits_datasets linker = false → σ' = σ).
Proof.
  unfold split_left_right, splits_datasets.
  destruct (_two_dataset_link_only linker
            && negb (_find_new_matches_mode linker)
            && negb (_compare_two_records_mode linker)).
  - cbv zeta.
    destruct (sorted _) as [|k0 [|k1 keys]]; [done|done|].
    destruct (_ !! k0) as [df_l|]; [|done].
    destruct (_ !! k1) as [df_r|]; [|done].
    cbv [mbind M_bind bind enqueue_sql]. cbn [rules backend enqueued warnings].
    intros [= <-]. cbn [rules warnings enqueued].
    split; [done|]. split; [done|]. split; [|done].
    rewrite <- app_assoc. by eexists.
  - intros [= <-]. split; [done|]. split; [done|]. split; done.
Qed.

Section Run.

Context `{Externals}.

Variables (linker : Linker) (link_type : string) (apply_salt : bool).
Variables (sql_select_expr probability : string).

Lemma input_dataframe_of_cache_warnings (σ σ' : Store) (df : SplinkDataFrame) :
  input_dataframe_of_cache σ = Ok (df, σ') → warnings σ' = warnings σ.
Proof.
  unfold input_dataframe_of_cache, call_backend.
  destruct (_intermediate_table_cache _ _); [by intros [= _ <-]|].
  destruct (_initialise_df_concat_with_tf _) as [[df' b]|e]; [|done].
  by intros [= _ <-].
Qed.

Lemma block_branch_cases (br : ref) (salted_br where_condition : string)
    (σ σ' : Store) (sql where_condition' : string) :
  block_branch linker link_type apply_salt sql_select_expr probability
    br salted_br where_condition σ
  = Ok ((sql, where_condition'), σ') →
  match arrays_to_explode (deref (rules σ) br) with
  | [] =>
      σ' = σ
      ∧ where_condition' = where_condition
      ∧ sql = direct_statement linker sql_select_expr probability (rules σ)
                where_condition br salted_br
  | _ :: _ =>
      ∃ ids explode,
        rules σ' = <[br := append_ids_to_compare (deref (rules σ) br) ids]> (rules σ)
        ∧ warnings σ' = warnings σ
        ∧ enqueued σ'
          = enqueued σ
            ++ [(explode, "__splink__df_concat_with_tf_unnested");
                (ids_to_compare_sql (_unique_id_column_name (_settings_obj linker))
                   salted_br where_condition'
                   (and_not_preceding_rules_sql (rules σ) (deref (rules σ) br) linker),
                 ids_to_compare_name (deref (rules σ) br)
                   (salt_id_of linker apply_salt salted_br))]
        ∧ where_condition' = after_array_branch link_type where_condition
        ∧ sql = exploded_sql linker sql_select_expr probability
                  (deref (rules σ) br) ids
                  (_unique_id_column_name (_settings_obj linker))
  end.
Proof.
  unfold block_branch. unfold_monad.
  destruct (arrays_to_explode (deref (rules σ) br)) as [|a arrays] eqn:Harrays.
  { by intros [= <- <- <-]. }
  destruct (input_dataframe_of_cache σ) as [[input_dataframe σ1]|e] eqn:Hinput;
    [|done].
  pose proof (input_dataframe_of_cache_warnings _ _ _ Hinput) as Hwarnings.
  apply input_dataframe_of_cache_frame in Hinput as [Hrules Henqueued].
  unfold enqueue_sql, call_backend, append_ids. cbn [rules backend enqueued warnings].
  destruct (_execute_sql_pipeline _ _) as [[ids b]|e]; [|done].
  intros [= <- <- <-]. cbn [rules enqueued warnings].
  rewrite Hrules, Henqueued, Hwarnings.
  eexists ids, _. split; [done|]. split; [done|].
  split; [by rewrite <- app_assoc|]. done.
Qed.

Lemma block_branch_grows (br : ref) (salted_br where_condition : string)
    (σ σ' : Store) (sql where_condition' : string) :
  block_branch linker link_type apply_salt sql_select_expr probability
    br salted_br where_condition σ
  = Ok ((sql, where_condition'), σ') →
  only_caches_grow (rules σ) (rules σ')
  ∧ warnings σ' = warnings σ
  ∧ enqueued σ `prefix_of` enqueued σ'.
Proof.
  intros Hbranch. apply block_branch_cases in Hbranch.
  destruct (arrays_to_explode (deref (rules σ) br)).
  - destruct Hbranch as (-> & _). split; [apply only_caches_grow_refl|done].
  - destruct Hbranch as (ids & explode & -> & -> & -> & _).
    split; [apply only_caches_grow_append_ids|]. split; [done|]. by eexists.
Qed.

Lemma block_salted_grows (br : ref) (salted : list string) (where_condition : string)
    (sqls : list string) (σ σ' : Store) (where_condition' : string)
    (sqls' : list string) :
  block_salted linker link_type apply_salt sql_select_expr probability
    br salted where_condition sqls σ
  = Ok ((where_condition', sqls'), σ') →
  only_caches_grow (rules σ) (rules σ')
  ∧ warnings σ' = warnings σ
  ∧ enqueued σ `prefix_of` enqueued σ'
  ∧ ∃ stmts, sqls' = sqls ++ stmts ∧ length stmts = length salted.
Proof.
  revert where_condition sqls σ.
  induction salted as [|salted_br rest IH]; intros where_condition sqls σ.
  - cbn [block_salted]. unfold ret. intros [= <- <- <-].
    split; [apply only_caches_grow_refl|]. split; [done|]. split; [done|].
    exists []. by rewrite app_nil_r.
  - cbn [block_salted]. unfold mbind, M_bind, bind.
    destruct (block_branch _ _ _ _ _ _ _ _ _) as [[[sql wc1] σ1]|e] eqn:Hbranch;
      [|done].
    apply block_branch_grows in Hbranch as (Hgrow1 & Hwarn1 & Henq1).
    intros Hrest. apply IH in Hrest as (Hgrow & Hwarn & Henq & stmts & -> & Hlen).
    split; [by eapply only_caches_grow_trans|].
    split; [congruence|]. split; [by etransitivity|].
    exists (sql :: stmts). rewrite <- app_assoc. split; [done|].
    cbn [length]. by rewrite Hlen.
Qed.

Lemma block_rules_grows (brs : list ref) (where_condition : string)
    (sqls : list string) (σ σ' : Store) (where_condition' : string)
    (sqls' : list string) :
  block_rules linker link_type apply_salt sql_select_expr probability
    brs where_condition sqls σ
  = Ok ((where_condition', sqls'), σ') →
  only_caches_grow (rules σ) (rules σ')
  ∧ warnings σ' = warnings σ
  ∧ enqueued σ `prefix_of` enqueued σ'
  ∧ ∃ stmts, sqls' = sqls ++ stmts
             ∧ length stmts = branch_count apply_salt (rules σ) brs.
Proof.
  revert where_condition sqls σ.
  induction brs as [|br brs IH]; intros where_condition sqls σ.
  - cbn [block_rules]. unfold ret. intros [= <- <- <-].
    split; [apply only_caches_grow_refl|]. split; [done|]. split; [done|].
    exists []. by rewrite app_nil_r.
  - cbn [block_rules]. unfold mbind, M_bind, bind, get_rule.
    destruct (block_salted _ _ _ _ _ _ _ _ _ _) as [[[wc1 sqls1] σ1]|e] eqn:Hsalted;
      [|done].
    apply block_salted_grows in Hsalted
      as (Hgrow1 & Hwarn1 & Henq1 & stmts1 & -> & Hlen1).
    intros Hrest. apply IH in Hrest as (Hgrow & Hwarn & Henq & stmts & -> & Hlen).
    split; [by eapply only_caches_grow_trans|].
    split; [congruence|]. split; [by etransitivity|].
    exists (stmts1 ++ stmts). rewrite <- app_assoc. split; [done|].
    rewrite length_app, Hlen, Hlen1, (branch_count_grow _ _ _ _ Hgrow1).
    unfold branch_count. rewrite fmap_cons. cbn [sum_list].
    unfold branches_of at 1. done.
Qed.

End Run.

(** X11.  The loop over the rules appends its statements to the ones that
    are there, one for every predicate of every rule: the salted variants
    of a rule when salt is applied, and the rule's own predicate
    otherwise. *)
Theorem loop_appends_one_statement_per_branch `{Externals} (linker : Linker)
    (link_type : string) (apply_salt : bool) (sql_select_expr probability : string)
    (brs : list ref) (where_condition : string) (sqls : list string)
    (σ σ' : Store) (where_condition' : string) (sqls' : list string) :
  block_rules linker link_type apply_salt sql_select_expr probability
    brs where_condition sqls σ
  = Ok ((where_condition', sqls'), σ') →
  ∃ stmts,
    sqls' = sqls ++ stmts
    ∧ length stmts = branch_count apply_salt (rules σ) brs.
Proof.
  intros Hrun. by apply block_rules_grows in Hrun as (_ & _ & _ & Hstmts).
Qed.

Lemma loop_appends_one_statement_per_branch_example :
  let linker := example_linker "SparkLinker" "dedupe_only" [0; 1] in
  let h :=
    compose_rules
      [BlockingRule__init__ "l.postcode = r.postcode" 3 None ["postcode"];
       BlockingRule__init__ "l.surname = r.surname" 2 None []] in
  match block_rules linker "dedupe_only" true "*" "" [0; 1] "where 1=1" ["select 0"]
          (example_store h) with
  | Ok ((where_condition', sqls'), σ') =>
      ∃ stmts,
        sqls' = ["select 0"] ++ stmts
        ∧ length stmts = branch_count true (rules (example_store h)) [0; 1]
  | Raise _ => False
  end.
Proof.
  intros linker h.
  destruct (block_rules linker "dedupe_only" true "*" "" [0; 1] "where 1=1"
              ["select 0"] (example_store h))
    as [[[where_condition' sqls'] σ']|e] eqn:Hrun.
  - exact (loop_appends_one_statement_per_branch linker "dedupe_only" true "*" ""
             [0; 1] "where 1=1" ["select 0"] (example_store h) σ'
             where_condition' sqls' Hrun).
  - vm_compute in Hrun. discriminate Hrun.
Defined.

Lemma block_using_rules_sql_steps `{Externals} (linker : Linker) (σ : Store) :
  block_using_rules_sql linker σ
  = match _sql_gen_where_condition (resolve_link_type linker)
            (_unique_id_input_columns (_settings_obj linker)) with
    | Ok where_condition =>
        match block_rules linker (resolve_link_type linker) (applies_salt linker)
                (select_expr_of linker) (probability_of linker)
                (rules_in_loop linker σ) where_condition []
                (store_in_loop linker σ) with
        | Ok ((_, sqls), σ1) =>
            match split_left_right linker σ1 with
            | Ok (_, σ2) => Ok (join "union all" sqls, σ2)
            | Raise e => Raise e
            end
        | Raise e => Raise e
        end
    | Raise e => Raise e
    end.
Proof.
  unfold block_using_rules_sql. cbv [mbind M_bind bind lift_result].
  destruct (_sql_gen_where_condition _ _) as [where_condition|e]; [|done].
  rewrite salting_warning_step.
  unfold rules_in_loop, store_in_loop, rules_of_run.
  destruct (match _blocking_rule_for_training (_settings_obj linker) with
            | Some br => [br]
            | None => _blocking_rules_to_generate_predictions (_settings_obj linker)
            end) as [|br brs].
  - cbv [new_rule ret]. unfold with_new_rule. rewrite !rules_with_salting_warning.
    unfold applies_salt, select_expr_of, probability_of.
    destruct (block_rules _ _ _ _ _ _ _ _ _) as [[[wc sqls] σ1]|e]; [|done].
    destruct (split_left_right linker σ1) as [[[] σ2]|e]; done.
  - cbv [ret]. unfold applies_salt, select_expr_of, probability_of.
    destruct (block_rules _ _ _ _ _ _ _ _ _) as [[[wc sqls] σ1]|e]; [|done].
    destruct (split_left_right linker σ1) as [[[] σ2]|e]; done.
Qed.

(** X12.  A run that returns has changed the rules in one way only: tables
    were appended to caches.  No rule is created past the default rule,
    none is removed, and no predicate, dialect, list of preceding rules,
    number of partitions or list of arrays is written; the only warning
    is the one about salting, and the statements enqueued before the run
    stay at the head of the pipeline. *)
Theorem run_only_grows_caches `{Externals} (linker : Linker) (σ σ' : Store)
    (sql : string) :
  block_using_rules_sql linker σ = Ok (sql, σ') →
  only_caches_grow (rules (store_in_loop linker σ)) (rules σ')
  ∧ (∀ br, static (deref (rules σ') br)
           = static (deref (rules (store_in_loop linker σ)) br)
           ∧ sql_dialect (deref (rules σ') br)
             = sql_dialect (deref (rules (store_in_loop linker σ)) br))
  ∧ warnings σ' = warnings (with_salting_warning linker σ)
  ∧ enqueued σ `prefix_of` enqueued σ'.
Proof.
  rewrite block_using_rules_sql_steps.
  destruct (_sql_gen_where_condition _ _) as [where_condition|e]; [|done].
  destruct (block_rules _ _ _ _ _ _ _ _ _) as [[[wc sqls] σ1]|e] eqn:Hrun; [|done].
  destruct (split_left_right linker σ1) as [[[] σ2]|e] eqn:Hsplit; [|done].
  intros [= _ <-].
  apply block_rules_grows in Hrun as (Hgrow & Hwarn & Henq & _).
  apply split_left_right_frame in Hsplit as (Hrules & Hwarn' & Henq' & _).
  rewrite Hrules, Hwarn', Hwarn.
  split; [done|]. split; [|split].
  - intros br.
    pose proof (only_caches_grow_deref _ _ br Hgrow) as Hext.
    by apply extends_cache_attributes in Hext as (_ & ? & _ & ?).
  - unfold store_in_loop. by destruct (rules_of_run linker).
  - etransitivity; [|exact Henq']. etransitivity; [|exact Henq].
    unfold store_in_loop, with_new_rule, with_salting_warning.
    by destruct (rules_of_run linker), (_ && _).
Qed.

Lemma run_only_grows_caches_example :
  let h :=
    compose_rules [example_array_rule "l.postcode = r.postcode";
                   BlockingRule_of_text "l.surname = r.surname"] in
  let linker := example_linker "DuckDBLinker" "dedupe_only" [0; 1] in
  let σ := example_store h in
  match block_using_rules_sql linker σ with
  | Ok (sql, σ') =>
      only_caches_grow (rules (store_in_loop linker σ)) (rules σ')
      ∧ (∀ br, static (deref (rules σ') br)
               = static (deref (rules (store_in_loop linker σ)) br)
               ∧ sql_dialect (deref (rules σ') br)
                 = sql_dialect (deref (rules (store_in_loop linker σ)) br))
      ∧ warnings σ' = warnings (with_salting_warning linker σ)
      ∧ enqueued σ `prefix_of` enqueued σ'
  | Raise _ => False
  end.
Proof.
  intros h linker σ.
  destruct (block_using_rules_sql linker σ) as [[sql σ']|e] eqn:Hrun.
  - exact (run_only_grows_caches linker σ σ' sql Hrun).
  - vm_compute in Hrun. discriminate Hrun.
Defined.

(** X13.  A pass of the inner loop for a rule with arrays to explode
    enqueues two statements, the unnested table and the id pairs of the
    rule, and appends the table the pipeline returns to the cache of this
    rule and of no other; the statement it adds to the union reads this
    table.  From then on the clause that keeps the rule's pairs out of
    later rules is the [EXISTS] test on the cached tables. *)
Theorem array_branch_caches_the_id_pairs `{Externals} (linker : Linker)
    (link_type : string) (apply_salt : bool) (sql_select_expr probability : string)
    (br : ref) (salted_br where_condition : string) (σ σ' : Store)
    (sql where_condition' : string) :
  br < length (rules σ) →
  arrays_to_explode (deref (rules σ) br) ≠ [] →
  block_branch linker link_type apply_salt sql_select_expr probability
    br salted_br where_condition σ
  = Ok ((sql, where_condition'), σ') →
  ∃ ids,
    deref (rules σ') br = append_ids_to_compare (deref (rules σ) br) ids
    ∧ (∀ other, other ≠ br → deref (rules σ') other = deref (rules σ) other)
    ∧ sql = exploded_sql linker sql_select_expr probability (deref (rules σ) br) ids
              (_unique_id_column_name (_settings_obj linker))
    ∧ (enqueued σ').*2
      = (enqueued σ).*2
        ++ ["__splink__df_concat_with_tf_unnested";
            ids_to_compare_name (deref (rules σ) br)
              (salt_id_of linker apply_salt salted_br)]
    ∧ exclude_from_following_rules_sql (deref (rules σ') br) linker
      = render_exclusion
          (Cached (ids_to_compare (deref (rules σ) br) ++ [ids])
             (_unique_id_column_name (_settings_obj linker))).
Proof.
  intros Hbr Harrays Hbranch. apply block_branch_cases in Hbranch.
  destruct (arrays_to_explode (deref (rules σ) br)) as [|a arrays]; [done|].
  destruct Hbranch as (ids & explode & Hrules & _ & Henq & _ & ->).
  exists ids.
  assert (Hnew : deref (rules σ') br = append_ids_to_compare (deref (rules σ) br) ids).
  { unfold deref at 1. rewrite Hrules. by apply list_lookup_total_insert_eq. }
  split; [done|]. split; [|split; [done|split]].
  - intros other Hother. unfold deref at 1. rewrite Hrules.
    by rewrite list_lookup_total_insert_ne.
  - rewrite Henq, fmap_app. done.
  - rewrite exclude_from_following_rules_sql_render, Hnew.
    unfold exclusion_of. cbn [append_ids_to_compare ids_to_compare].
    by destruct (ids_to_compare (deref (rules σ) br)).
Qed.

Lemma array_branch_caches_the_id_pairs_example :
  let h := [example_array_rule "l.postcode = r.postcode"] in
  let linker := example_linker "DuckDBLinker" "dedupe_only" [0] in
  let σ := example_store h in
  match block_branch linker "dedupe_only" false "*" "" 0 "l.postcode = r.postcode"
          "where 1=1" σ with
  | Ok ((sql, where_condition'), σ') =>
      ∃ ids,
        deref (rules σ') 0 = append_ids_to_compare (deref (rules σ) 0) ids
        ∧ (∀ other, other ≠ 0 → deref (rules σ') other = deref (rules σ) other)
        ∧ sql = exploded_sql linker "*" "" (deref (rules σ) 0) ids
                  (_unique_id_column_name (_settings_obj linker))
        ∧ (enqueued σ').*2
          = (enqueued σ).*2
            ++ ["__splink__df_concat_with_tf_unnested";
                ids_to_compare_name (deref (rules σ) 0)
                  (@salt_id_of example_externals linker false
                     "l.postcode = r.postcode")]
        ∧ exclude_from_following_rules_sql (deref (rules σ') 0) linker
          = render_exclusion
              (Cached (ids_to_compare (deref (rules σ) 0) ++ [ids])
                 (_unique_id_column_name (_settings_obj linker)))
  | Raise _ => False
  end.
Proof.
  intros h linker σ.
  destruct (block_branch linker "dedupe_only" false "*" "" 0
              "l.postcode = r.postcode" "where 1=1" σ)
    as [[[sql where_condition'] σ']|e] eqn:Hrun.
  - apply (array_branch_caches_the_id_pairs linker "dedupe_only" false "*" "" 0
             "l.postcode = r.postcode" "where 1=1" σ σ' sql where_condition').
    + unfold σ, h. cbn. lia.
    + discriminate.
    + exact Hrun.
  - vm_compute in Hrun. discriminate Hrun.
Defined.

Lemma block_using_rules_sql_direct `{Externals} (linker : Linker) (σ : Store) :
  Forall (λ br, arrays_to_explode (deref (rules (store_in_loop linker σ)) br) = [])
    (rules_in_loop linker σ) →
  block_using_rules_sql linker σ
  = match _sql_gen_where_condition (resolve_link_type linker)
            (_unique_id_input_columns (_settings_obj linker)) with
    | Ok where_condition =>
        match split_left_right linker (store_in_loop linker σ) with
        | Ok (_, σ') =>
            Ok (join "union all"
                  (render_statement linker (select_expr_of linker)
                     (probability_of linker)
                   <$> statements (rules (store_in_loop linker σ)) linker
                         (applies_salt linker) where_condition
                         (rules_in_loop linker σ)),
                σ')
        | Raise e => Raise e
        end
    | Raise e => Raise e
    end.
Proof.
  intros Hdirect. rewrite block_using_rules_sql_steps.
  destruct (_sql_gen_where_condition _ _) as [where_condition|e]; [|done].
  by rewrite block_rules_statements.
Qed.

(** X14.  When no rule of the run has arrays to explode, the loop touches
    neither the rules nor the pipeline: the result is the union of one
    [select] for every predicate of every rule, in the order of the rules,
    and the store is changed, after the warning about salting and the
    default rule, by the split of the two datasets alone. *)
Theorem run_without_arrays_is_the_union_of_the_statements `{Externals}
    (linker : Linker) (σ σ' : Store) (sql : string) :
  Forall (λ br, arrays_to_explode (deref (rules (store_in_loop linker σ)) br) = [])
    (rules_in_loop linker σ) →
  block_using_rules_sql linker σ = Ok (sql, σ') →
  ∃ where_condition,
    _sql_gen_where_condition (resolve_link_type linker)
      (_unique_id_input_columns (_settings_obj linker))
    = Ok where_condition
    ∧ sql
      = join "union all"
          (render_statement linker (select_expr_of linker) (probability_of linker)
           <$> statements (rules (store_in_loop linker σ)) linker
                 (applies_salt linker) where_condition (rules_in_loop linker σ))
    ∧ split_left_right linker (store_in_loop linker σ) = Ok (tt, σ')
    ∧ rules σ' = rules (store_in_loop linker σ)
    ∧ (splits_datasets linker = false → σ' = store_in_loop linker σ).
Proof.
  intros Hdirect. rewrite block_using_rules_sql_direct by done.
  destruct (_sql_gen_where_condition _ _) as [where_condition|e]; [|done].
  destruct (split_left_right _ _) as [[[] σ2]|e] eqn:Hsplit; [|done].
  intros [= <- <-]. exists where_condition.
  apply split_left_right_frame in Hsplit as (Hrules & _ & _ & Hsame).
  done.
Qed.

Lemma run_without_arrays_is_the_union_of_the_statements_example :
  let h :=
    compose_rules [BlockingRule_of_text "l.postcode = r.postcode";
                   BlockingRule_of_text "l.surname = r.surname"] in
  let linker := example_linker "DuckDBLinker" "dedupe_only" [0; 1] in
  let σ := example_store h in
  match block_using_rules_sql linker σ with
  | Ok (sql, σ') =>
      ∃ where_condition,
        @_sql_gen_where_condition example_externals (resolve_link_type linker)
          (_unique_id_input_columns (_settings_obj linker))
        = Ok where_condition
        ∧ sql
          = join "union all"
              (render_statement linker (select_expr_of linker) (probability_of linker)
               <$> statements (rules (store_in_loop linker σ)) linker
                     (applies_salt linker) where_condition (rules_in_loop linker σ))
        ∧ split_left_right linker (store_in_loop linker σ) = Ok (tt, σ')
        ∧ rules σ' = rules (store_in_loop linker σ)
        ∧ (splits_datasets linker = false → σ' = store_in_loop linker σ)
  | Raise _ => False
  end.
Proof.
  intros h linker σ.
  destruct (block_using_rules_sql linker σ) as [[sql σ']|e] eqn:Hrun.
  - apply (run_without_arrays_is_the_union_of_the_statements linker σ σ' sql);
      [|exact Hrun].
    apply Forall_cons. split; [reflexivity|].
    apply Forall_cons. split; [reflexivity|]. apply Forall_nil_2.
  - vm_compute in Hrun. discriminate Hrun.
Defined.

(** X15.  When a rule for training is set and has no arrays to explode,
    the rules to generate predictions play no part: the run gives the
    same statement and the same store, or the same exception, whatever
    these rules are. *)
Theorem training_rule_replaces_the_prediction_rules `{Externals}
    (linker : Linker) (br : ref) (brs : list ref) (σ : Store) :
  _blocking_rule_for_training (_settings_obj linker) = Some br →
  arrays_to_explode (deref (rules σ) br) = [] →
  block_using_rules_sql (set_prediction_rules linker brs) σ
  = block_using_rules_sql linker σ.
Proof.
  intros Htraining Hdirect.
  assert (Hloop : ∀ linker', _blocking_rule_for_training (_settings_obj linker') = Some br →
            rules_in_loop linker' σ = [br]
            ∧ store_in_loop linker' σ = with_salting_warning linker' σ).
  { intros linker' H'. unfold rules_in_loop, store_in_loop, rules_of_run.
    by rewrite H'. }
  destruct (Hloop linker Htraining) as [Hrules Hstore].
  destruct (Hloop (set_prediction_rules linker brs) Htraining) as [Hrules' Hstore'].
  rewrite !block_using_rules_sql_direct.
  - rewrite Hrules, Hstore, Hrules', Hstore'. reflexivity.
  - rewrite Hrules, Hstore, rules_with_salting_warning.
    apply Forall_cons. split; [done|]. apply Forall_nil_2.
  - rewrite Hrules', Hstore', rules_with_salting_warning.
    apply Forall_cons. split; [done|]. apply Forall_nil_2.
Qed.

Lemma training_rule_replaces_the_prediction_rules_example :
  let h := [BlockingRule_of_text "l.surname = r.surname";
            example_array_rule "l.postcode = r.postcode"] in
  let linker :=
    example_two_dataset_linker
      {[ "people_b" := example_table "people_b";
         "people_a" := example_table "people_a" ]} (Some 0) [] in
  let σ := example_store h in
  _blocking_rule_for_training (_settings_obj linker) = Some 0
  ∧ arrays_to_explode (deref (rules σ) 0) = []
  ∧ block_using_rules_sql (set_prediction_rules linker [1; 0]) σ
    = block_using_rules_sql linker σ.
Proof.
  split; [reflexivity|]. split; [reflexivity|].
  exact (@training_rule_replaces_the_prediction_rules example_externals
           (example_two_dataset_linker
              {[ "people_b" := example_table "people_b";
                 "people_a" := example_table "people_a" ]} (Some 0) [])
           0 [1; 0]
           (example_store [BlockingRule_of_text "l.surname = r.surname";
                           example_array_rule "l.postcode = r.postcode"])
           eq_refl eq_refl).
Defined.

(** ** The salted variants, one against the other *)


(** ** The cache of a rule with arrays to explode *)

Lemma block_salted_array_cache `{Externals} (linker : Linker) (link_type : string)
    (apply_salt : bool) (sql_select_expr probability : string) (br : ref)
    (salted : list string) (where_condition : string) (sqls : list string)
    (σ σ' : Store) (where_condition' : string) (sqls' : list string) :
  br < length (rules σ) →
  arrays_to_explode (deref (rules σ) br) ≠ [] →
  block_salted linker link_type apply_salt sql_select_expr probability
    br salted where_condition sqls σ
  = Ok ((where_condition', sqls'), σ') →
  ∃ tables,
    length tables = length salted
    ∧ deref (rules σ') br = foldl append_ids_to_compare (deref (rules σ) br) tables
    ∧ (∀ other, other ≠ br → deref (rules σ') other = deref (rules σ) other)
    ∧ sqls'
      = sqls ++ ((λ ids, exploded_sql linker sql_select_expr probability
                           (deref (rules σ) br) ids
                           (_unique_id_column_name (_settings_obj linker)))
                 <$> tables).
Proof.
  revert where_condition sqls σ.
  induction salted as [|salted_br rest IH]; intros where_condition sqls σ Hbr Harrays.
  - cbn [block_salted]. unfold ret. intros [= <- <- <-].
    exists []. by rewrite app_nil_r.
  - cbn [block_salted]. unfold mbind, M_bind, bind.
    destruct (block_branch _ _ _ _ _ _ _ _ _) as [[[sql wc1] σ1]|e] eqn:Hbranch;
      [|done].
    apply block_branch_cases in Hbranch.
    destruct (arrays_to_explode (deref (rules σ) br)) as [|a arrays] eqn:Ha; [done|].
    destruct Hbranch as (ids & explode & Hrules & _ & _ & _ & ->).
    assert (Hnew : deref (rules σ1) br
                   = append_ids_to_compare (deref (rules σ) br) ids).
    { unfold deref at 1. rewrite Hrules. by apply list_lookup_total_insert_eq. }
    assert (Hothers : ∀ other, other ≠ br →
              deref (rules σ1) other = deref (rules σ) other).
    { intros other Hother. unfold deref at 1. rewrite Hrules.
      by rewrite list_lookup_total_insert_ne. }
    intros Hrest. apply IH in Hrest as (tables & Hlen & Hcache & Hframe & ->).
    + exists (ids :: tables). cbn [length foldl]. rewrite Hlen, Hcache, Hnew.
      split; [done|]. split; [done|]. split.
      * intros other Hother. by rewrite Hframe, Hothers.
      * by rewrite <- app_assoc, fmap_cons.
    + rewrite Hrules, length_insert. done.
    + rewrite Hnew. cbn [append_ids_to_compare arrays_to_explode]. by rewrite Ha.
Qed.

(** X17.  The inner loop for a rule with arrays to explode appends one
    table to the cache of the rule for each of its predicates, and leaves
    the other rules alone; the statements it adds to the union read these
    tables, in this order.  When the rule has at least one predicate, the
    clause that later rules use to exclude its pairs is the [EXISTS] test
    on the tables of its cache. *)
Theorem array_rule_caches_one_table_per_predicate `{Externals} (linker : Linker)
    (link_type : string) (apply_salt : bool) (sql_select_expr probability : string)
    (br : ref) (salted : list string) (where_condition : string)
    (sqls : list string) (σ σ' : Store) (where_condition' : string)
    (sqls' : list string) :
  br < length (rules σ) →
  arrays_to_explode (deref (rules σ) br) ≠ [] →
  block_salted linker link_type apply_salt sql_select_expr probability
    br salted where_condition sqls σ
  = Ok ((where_condition', sqls'), σ') →
  ∃ tables,
    length tables = length salted
    ∧ ids_to_compare (deref (rules σ') br)
      = ids_to_compare (deref (rules σ) br) ++ tables
    ∧ (∀ other, other ≠ br → deref (rules σ') other = deref (rules σ) other)
    ∧ sqls'
      = sqls ++ ((λ ids, exploded_sql linker sql_select_expr probability
                           (deref (rules σ) br) ids
                           (_unique_id_column_name (_settings_obj linker)))
                 <$> tables)
    ∧ (salted ≠ [] →
       exclude_from_following_rules_sql (deref (rules σ') br) linker
       = render_exclusion
           (Cached (ids_to_compare (deref (rules σ) br) ++ tables)
              (_unique_id_column_name (_settings_obj linker)))).
Proof.
  intros Hbr Harrays Hrun.
  apply block_salted_array_cache in Hrun as (tables & Hlen & Hcache & Hframe & ->);
    [|done..].
  exists tables.
  assert (Hids : ids_to_compare (deref (rules σ') br)
                 = ids_to_compare (deref (rules σ) br) ++ tables).
  { rewrite Hcache. clear. generalize (deref (rules σ) br).
    induction tables as [|ids tables IH]; intros r; cbn [foldl].
    - by rewrite app_nil_r.
    - rewrite IH. cbn [append_ids_to_compare ids_to_compare].
      by rewrite <- app_assoc. }
  split; [done|]. split; [done|]. split; [done|]. split; [done|].
  intros Hsalted. rewrite exclude_from_following_rules_sql_render.
  unfold exclusion_of. rewrite Hids.
  destruct tables as [|ids tables]; [by destruct salted|].
  by destruct (ids_to_compare (deref (rules σ) br)).
Qed.

Lemma array_rule_caches_one_table_per_predicate_example :
  let h := [BlockingRule__init__ "l.postcode = r.postcode" 2 None ["postcode"]] in
  let linker := example_linker "SparkLinker" "dedupe_only" [0] in
  let σ := example_store h in
  let salted := salted_blocking_rules (deref h 0) in
  match block_salted linker "dedupe_only" true "*" "" 0 salted "where 1=1" [] σ with
  | Ok ((where_condition', sqls'), σ') =>
      ∃ tables,
        length tables = length salted
        ∧ ids_to_compare (deref (rules σ') 0)
          = ids_to_compare (deref (rules σ) 0) ++ tables
        ∧ (∀ other, other ≠ 0 → deref (rules σ') other = deref (rules σ) other)
        ∧ sqls'
          = [] ++ ((λ ids, exploded_sql linker "*" "" (deref (rules σ) 0) ids
                             (_unique_id_column_name (_settings_obj linker)))
                   <$> tables)
        ∧ (salted ≠ [] →
           exclude_from_following_rules_sql (deref (rules σ') 0) linker
           = render_exclusion
               (Cached (ids_to_compare (deref (rules σ) 0) ++ tables)
                  (_unique_id_column_name (_settings_obj linker))))
  | Raise _ => False
  end.
Proof.
  intros h linker σ salted.
  destruct (block_salted linker "dedupe_only" true "*" "" 0 salted "where 1=1" [] σ)
    as [[[where_condition' sqls'] σ']|e] eqn:Hrun.
  - apply (array_rule_caches_one_table_per_predicate linker "dedupe_only" true
             "*" "" 0 salted "where 1=1" [] σ σ' where_condition' sqls').
    + unfold σ, h. cbn. lia.
    + discriminate.
    + exact Hrun.
  - vm_compute in Hrun. discriminate Hrun.
Defined.
